(** * open-claude: MCP argument sanitizing, tool selection and streaming blocks

    A shallow embedding of the TypeScript functions quoted in the
    repository's review documents (main.ts, mcp/client.ts and
    renderer/main.ts), with the properties stated about them. *)

From Stdlib Require Import ZArith Ascii String DecimalString.
From stdpp Require Import base option list gmap strings.

Local Open Scope string_scope.
Local Open Scope list_scope.

(** ** JavaScript strings and values *)

(** The two quote characters the sanitizer looks for. *)
Definition DQ : ascii := "034"%char.
Definition SQ : ascii := "'"%char.
Definition dquote : string := String DQ EmptyString.
Definition squote : string := String SQ EmptyString.

(** The primitive values a sanitizer can receive at run time:
    TypeScript's [string] annotation is erased, so a caller can pass any
    of these. *)
Inductive JsValue : Type :=
  | JsUndefined
  | JsNull
  | JsBoolean (b : bool)
  | JsNumber (n : Z)
  | JsString (s : string).

(** [typeof v === 'string'] *)
Definition isString (v : JsValue) : bool :=
  match v with JsString _ => true | _ => false end.

(** The outcome of a call that may raise: only [TypeError] occurs here
    (a method looked up on a value that does not have it). *)
Inductive Completion (A : Type) : Type :=
  | Return (a : A)
  | ThrowTypeError.
Arguments Return {A} a.
Arguments ThrowTypeError {A}.

Definition bindC {A B} (c : Completion A) (k : A → Completion B) : Completion B :=
  match c with
  | Return a => k a
  | ThrowTypeError => ThrowTypeError
  end.

Module JsStr.

(** [s.startsWith(p)] *)
Definition startsWith (s p : string) : bool := String.prefix p s.

(** [s.endsWith(p)]: the last [p.length] units of [s] are compared with
    [p]; false when [p] is longer than [s]. *)
Definition endsWith (s p : string) : bool :=
  let n := String.length s in
  let m := String.length p in
  if (m <=? n)%nat then String.eqb (substring (n - m) m s) p else false.

(** Relative index of [slice]: a negative index counts from the end and
    both are clamped to [0, len]. *)
Definition relIndex (len : nat) (i : Z) : nat :=
  if (i <? 0)%Z then Z.to_nat (Z.max (Z.of_nat len + i) 0)
  else Nat.min (Z.to_nat i) len.

(** [s.slice(start, end)] *)
Definition slice (s : string) (start end_ : Z) : string :=
  let len := String.length s in
  let from := relIndex len start in
  let to := relIndex len end_ in
  if (to <=? from)%nat then EmptyString
  else substring from (to - from) s.

(** [s.split(sep)] for a one-character separator: the pieces between
    the separators, at least one piece. *)
Fixpoint split (sep : ascii) (s : string) : list string :=
  match s with
  | EmptyString => [EmptyString]
  | String c s' =>
      if Ascii.eqb c sep then EmptyString :: split sep s'
      else match split sep s' with
           | p :: ps => String c p :: ps
           | [] => [String c EmptyString]
           end
  end.

End JsStr.

(** ** Argument sanitizer *)

(** The quote test shared by both sanitizers:
    [(arg.startsWith('"') && arg.endsWith('"')) ||
     (arg.startsWith("'") && arg.endsWith("'"))]. *)
Definition quoteTest (arg : string) : bool :=
  (JsStr.startsWith arg dquote && JsStr.endsWith arg dquote)
  || (JsStr.startsWith arg squote && JsStr.endsWith arg squote).

(** The body both functions run on a string: strip with [slice(1, -1)]
    when the test holds. *)
Definition stripQuotes (arg : string) : string :=
  if quoteTest arg then JsStr.slice arg 1 (-1) else arg.

(** main.ts [sanitizeArg]: the [typeof] guard, then the quote test. *)
Definition sanitizeArg (arg : JsValue) : string :=
  match arg with
  | JsString s => stripQuotes s
  | _ => EmptyString
  end.

(** The arrow function of mcp/client.ts [sanitizeArgs]: no [typeof]
    guard, so [arg.startsWith] on a value that is not a string raises. *)
Definition sanitizeArgs_elem (arg : JsValue) : Completion string :=
  match arg with
  | JsString s => Return (stripQuotes s)
  | _ => ThrowTypeError
  end.

(** [args.map(f)] for an [f] that may raise: elements are visited in
    order and the first exception aborts the whole call. *)
Fixpoint mapC {A B} (f : A → Completion B) (l : list A) : Completion (list B) :=
  match l with
  | [] => Return []
  | x :: xs => bindC (f x) (λ y, bindC (mapC f xs) (λ ys, Return (y :: ys)))
  end.

(** mcp/client.ts [sanitizeArgs] *)
Definition sanitizeArgs (args : list JsValue) : Completion (list string) :=
  mapC sanitizeArgs_elem args.

(** The shape the specification calls fully wrapped: an opening quote, any
    inner text, and a closing quote of the same kind. *)
Definition wrap (q : ascii) (inner : string) : string :=
  String q (inner +:+ String q EmptyString).

Definition wrappedIn (q : ascii) (s : string) : Prop :=
  ∃ inner, s = wrap q inner.

(** ** Tool selection (renderer/main.ts) *)

Module Selection.

(** One discovered tool of a server; the quoted code reads its name. *)
Record MCPTool : Type := { name : string }.

(** One entry of [mcpServerStatus], with the fields the quoted code
    reads: [s.id], [server.isConnected], [server.tools]. *)
Record MCPServerStatus : Type := {
  id : string;
  isConnected : bool;
  tools : list MCPTool
}.

(** A JavaScript [Set<string>]: its elements in insertion order, each
    once. *)
Abbreviation StringSet := (list string).

(** [xs.has(x)] *)
Definition has (xs : StringSet) (x : string) : bool := bool_decide (x ∈ xs).

(** [xs.add(x)]: appended when absent, otherwise nothing changes. *)
Definition add (x : string) (xs : StringSet) : StringSet :=
  if has xs x then xs else xs ++ [x].

(** The module-level variables of the renderer:
    [mcpServerStatus], [selectedMCPTools] (keys serverId:toolName),
    [selectedMCPServers] (server ids) and [toolsPopupExpanded]. *)
Record State : Type := {
  mcpServerStatus : list MCPServerStatus;
  selectedMCPTools : StringSet;
  selectedMCPServers : StringSet;
  toolsPopupExpanded : StringSet
}.

(** An element of the array [getSelectedMCPTools] returns. [toolName]
    is [None] for JavaScript's [undefined], which destructuring yields
    for a key without a second piece. *)
Record SelectedTool : Type := {
  serverId : string;
  toolName : option string
}.

(** [mcpServerStatus.find(s => s.id === serverId)] *)
Definition findServer (st : State) (sid : string) : option MCPServerStatus :=
  List.find (λ s, String.eqb (id s) sid) (mcpServerStatus st).

(** [const [serverId, toolName] = toolKey.split(':')] *)
Definition splitKey (toolKey : string) : string * option string :=
  match JsStr.split ":" toolKey with
  | sid :: rest => (sid, head rest)
  | [] => (EmptyString, None)
  end.

(** [getSelectedMCPTools]. The quoted body leaves out the inside of its
    first loop behind the comment find server, add all tools, and the
    destructuring of [toolKey]; both are written here as the sibling
    loops of [updateToolsBadge] have them ([find] by id, the
    [server && server.isConnected] guard, [toolKey.split(':')]), which
    the review documents describe as the same calculation. *)
Definition getSelectedMCPTools (st : State) : list SelectedTool :=
  let tools : list SelectedTool := [] in
  let tools :=
    foldl (λ tools sid,
             match findServer st sid with
             | Some server =>
                 if isConnected server then
                   foldl (λ tools tool,
                            tools ++ [{| serverId := sid;
                                         toolName := Some (name tool) |}])
                         tools (Selection.tools server)
                 else tools
             | None => tools
             end)
          tools (selectedMCPServers st) in
  let tools :=
    foldl (λ tools toolKey,
             let '(sid, tn) := splitKey toolKey in
             if negb (has (selectedMCPServers st) sid)
             then tools ++ [{| serverId := sid; toolName := tn |}]
             else tools)
          tools (selectedMCPTools st) in
  tools.

(** The counting part of [updateToolsBadge]: the two loops over the
    selected servers and the individually selected keys. *)
Definition toolsBadgeCount (st : State) : nat :=
  let count := 0 in
  let count :=
    foldl (λ count sid,
             match findServer st sid with
             | Some server =>
                 if isConnected server then count + length (tools server)
                 else count
             | None => count
             end)
          count (selectedMCPServers st) in
  let count :=
    foldl (λ count toolKey,
             let sid := (splitKey toolKey).1 in
             if negb (has (selectedMCPServers st) sid) then count + 1
             else count)
          count (selectedMCPTools st) in
  count.

(** The badge element: its text and its [style.display]. *)
Record Badge : Type := {
  badgeText : string;
  badgeDisplay : string
}.

(** [count.toString()] *)
Definition toString (n : nat) : string :=
  NilZero.string_of_uint (Nat.to_uint n).

(** [updateToolsBadge]: nothing happens without the element
    ([if (!badge) return]); a positive count is written and shown,
    a zero count only hides the badge. *)
Definition updateToolsBadge (st : State) (badge : option Badge) : option Badge :=
  match badge with
  | None => None
  | Some b =>
      let count := toolsBadgeCount st in
      if (0 <? count)%nat
      then Some {| badgeText := toString count; badgeDisplay := "flex" |}
      else Some {| badgeText := badgeText b; badgeDisplay := "none" |}
  end.

(** Modelled from the spec: [selectServer(serverId)] of the Tool
    Selection Registry, whose handler is not among the quoted code. The
    specification names the source's whole-server set, and the quoted
    state declares it as [selectedMCPServers], a set of server ids that
    [getSelectedMCPTools] and [updateToolsBadge] read as the selected
    servers; selecting a server adds its id to that set. *)
Definition selectServer (sid : string) (st : State) : State :=
  {| mcpServerStatus := mcpServerStatus st;
     selectedMCPTools := selectedMCPTools st;
     selectedMCPServers := add sid (selectedMCPServers st);
     toolsPopupExpanded := toolsPopupExpanded st |}.

(** A (re)discovery: the status list is replaced wholesale. *)
Definition setServerStatus (status : list MCPServerStatus) (st : State) : State :=
  {| mcpServerStatus := status;
     selectedMCPTools := selectedMCPTools st;
     selectedMCPServers := selectedMCPServers st;
     toolsPopupExpanded := toolsPopupExpanded st |}.

(** The live capability list the registry sees for a server: the tool
    names of its status entry, none when there is no entry. *)
Definition liveNames (st : State) (sid : string) : list string :=
  match findServer st sid with
  | Some server => map name (tools server)
  | None => []
  end.

(** What the first loop of [getSelectedMCPTools] pushes for one
    selected server, and what its second loop pushes for one key. *)
Definition serverTools (st : State) (sid : string) : list SelectedTool :=
  match findServer st sid with
  | Some server =>
      if isConnected server
      then map (λ tool, {| serverId := sid; toolName := Some (name tool) |})
               (tools server)
      else []
  | None => []
  end.

Definition keyTools (st : State) (toolKey : string) : list SelectedTool :=
  let '(sid, tn) := splitKey toolKey in
  if negb (has (selectedMCPServers st) sid)
  then [{| serverId := sid; toolName := tn |}]
  else [].

(** The returned element for a named tool of a server. *)
Definition selected (sid tn : string) : SelectedTool :=
  {| serverId := sid; toolName := Some tn |}.

(** A connected server called files with the given tool names, and a
    state with one status list and the two selection sets. *)
Definition filesServer (names : list string) : MCPServerStatus :=
  {| id := "files"; isConnected := true;
     tools := map (λ n, {| name := n |}) names |}.

Definition mkState (status : list MCPServerStatus)
    (selTools selServers : StringSet) : State :=
  {| mcpServerStatus := status;
     selectedMCPTools := selTools;
     selectedMCPServers := selServers;
     toolsPopupExpanded := [] |}.

End Selection.

(** ** Streaming blocks (renderer/main.ts) *)

Module Streaming.

(** The kinds of block a response is made of. *)
Inductive BlockKind : Type :=
  | reasoning
  | tool_invocation
  | tool_result
  | text.

(** Lifecycle state of a block. *)
Inductive Lifecycle : Type :=
  | open
  | closed.

(** Modelled from the spec: the [StreamingBlock] interface, whose
    declaration is not among the quoted code: a producer-assigned
    index, a kind, the accumulated content and a lifecycle state. *)
Record StreamingBlock : Type := {
  index : Z;
  kind : BlockKind;
  content : string;
  state : Lifecycle
}.

(** The [streamingBlocks] object: three [Map<number, StreamingBlock>]
    and the running text. *)
Record StreamingBlocks : Type := {
  thinkingBlocks : gmap Z StreamingBlock;
  toolBlocks : gmap Z StreamingBlock;
  textBlocks : gmap Z StreamingBlock;
  textContent : string
}.

(** [resetStreamingBlocks]: the three maps are cleared and the running
    text is set to the empty string. *)
Definition resetStreamingBlocks (sb : StreamingBlocks) : StreamingBlocks :=
  let sb := {| thinkingBlocks := ∅;
               toolBlocks := toolBlocks sb;
               textBlocks := textBlocks sb;
               textContent := textContent sb |} in
  let sb := {| thinkingBlocks := thinkingBlocks sb;
               toolBlocks := ∅;
               textBlocks := textBlocks sb;
               textContent := textContent sb |} in
  let sb := {| thinkingBlocks := thinkingBlocks sb;
               toolBlocks := toolBlocks sb;
               textBlocks := ∅;
               textContent := textContent sb |} in
  {| thinkingBlocks := thinkingBlocks sb;
     toolBlocks := toolBlocks sb;
     textBlocks := textBlocks sb;
     textContent := EmptyString |}.

(** The map that holds the blocks of a kind: reasoning blocks in
    [thinkingBlocks], both tool kinds in [toolBlocks], text blocks in
    [textBlocks]. *)
Definition collection (k : BlockKind) (sb : StreamingBlocks) : gmap Z StreamingBlock :=
  match k with
  | reasoning => thinkingBlocks sb
  | tool_invocation | tool_result => toolBlocks sb
  | text => textBlocks sb
  end.

Definition setCollection (k : BlockKind) (m : gmap Z StreamingBlock)
    (sb : StreamingBlocks) : StreamingBlocks :=
  match k with
  | reasoning =>
      {| thinkingBlocks := m; toolBlocks := toolBlocks sb;
         textBlocks := textBlocks sb; textContent := textContent sb |}
  | tool_invocation | tool_result =>
      {| thinkingBlocks := thinkingBlocks sb; toolBlocks := m;
         textBlocks := textBlocks sb; textContent := textContent sb |}
  | text =>
      {| thinkingBlocks := thinkingBlocks sb; toolBlocks := toolBlocks sb;
         textBlocks := m; textContent := textContent sb |}
  end.

Definition setTextContent (t : string) (sb : StreamingBlocks) : StreamingBlocks :=
  {| thinkingBlocks := thinkingBlocks sb; toolBlocks := toolBlocks sb;
     textBlocks := textBlocks sb; textContent := t |}.

(** Modelled from the spec: the state of the Streaming Response
    Assembler, whose event handlers are not among the quoted code: the
    block collections and running text of [streamingBlocks], and the
    count of dropped events. *)
Record Assembler : Type := {
  blocks : StreamingBlocks;
  droppedEvents : nat
}.

Definition withBlocks (sb : StreamingBlocks) (a : Assembler) : Assembler :=
  {| blocks := sb; droppedEvents := droppedEvents a |}.

(** Modelled from the spec: [open(kind, index)] creates an entry in
    state [open] under [index] in the kind's collection; an index that
    already has an entry is left as it is (a duplicate open is a no-op,
    a closed block is not reopened). *)
Definition open_ (k : BlockKind) (i : Z) (a : Assembler) : Assembler :=
  match collection k (blocks a) !! i with
  | Some _ => a
  | None =>
      let b := {| index := i; kind := k; content := EmptyString; state := open |} in
      withBlocks (setCollection k (<[i := b]> (collection k (blocks a))) (blocks a)) a
  end.

Definition appendContent (f : string) (b : StreamingBlock) : StreamingBlock :=
  {| index := index b; kind := kind b; content := content b +:+ f; state := state b |}.

(** Modelled from the spec: [append(kind, index, fragment)] appends the
    fragment to the open block at [index] in the kind's collection; for
    the text kind the fragment goes to the single running text instead
    of the per-index entry. For every kind, an index with no entry or
    with a closed block drops the event: nothing changes but the
    dropped-event count. *)
Definition append (k : BlockKind) (i : Z) (f : string) (a : Assembler) : Assembler :=
  match collection k (blocks a) !! i with
  | Some b =>
      match state b with
      | open =>
          match k with
          | text =>
              withBlocks (setTextContent (textContent (blocks a) +:+ f) (blocks a)) a
          | _ =>
              withBlocks
                (setCollection k (<[i := appendContent f b]> (collection k (blocks a)))
                   (blocks a)) a
          end
      | closed =>
          {| blocks := blocks a; droppedEvents := S (droppedEvents a) |}
      end
  | None => {| blocks := blocks a; droppedEvents := S (droppedEvents a) |}
  end.

Definition markClosed (b : StreamingBlock) : StreamingBlock :=
  {| index := index b; kind := kind b; content := content b; state := closed |}.

(** Modelled from the spec: [close(kind, index)] marks the block at
    [index] closed and keeps its content; an index with no entry is
    left alone. *)
Definition close (k : BlockKind) (i : Z) (a : Assembler) : Assembler :=
  match collection k (blocks a) !! i with
  | Some b =>
      withBlocks
        (setCollection k (<[i := markClosed b]> (collection k (blocks a))) (blocks a)) a
  | None => a
  end.

(** Modelled from the spec: [reset()] discards all block state, which
    is what [resetStreamingBlocks] does on [streamingBlocks]. *)
Definition reset (a : Assembler) : Assembler :=
  withBlocks (resetStreamingBlocks (blocks a)) a.

(** The events of the streaming contract. *)
Inductive Event : Type :=
  | EvOpen (k : BlockKind) (i : Z)
  | EvAppend (k : BlockKind) (i : Z) (f : string)
  | EvClose (k : BlockKind) (i : Z).

Definition handle (a : Assembler) (e : Event) : Assembler :=
  match e with
  | EvOpen k i => open_ k i a
  | EvAppend k i f => append k i f a
  | EvClose k i => close k i a
  end.

(** A sequence of events, handled one after the other. *)
Definition run (es : list Event) (a : Assembler) : Assembler :=
  foldl handle a es.

(** The four events of one block's life. *)
Definition blockLife (k : BlockKind) (i : Z) (f1 f2 : string) : list Event :=
  [EvOpen k i; EvAppend k i f1; EvAppend k i f2; EvClose k i].

(** The assembler before any event: nothing stored, nothing dropped. *)
Definition initial : Assembler :=
  {| blocks := {| thinkingBlocks := ∅; toolBlocks := ∅; textBlocks := ∅;
                  textContent := EmptyString |};
     droppedEvents := 0 |}.

(** An index at which an append is dropped: never opened, or closed. *)
Definition notOpen (k : BlockKind) (i : Z) (a : Assembler) : Prop :=
  collection k (blocks a) !! i = None
  ∨ ∃ b, collection k (blocks a) !! i = Some b ∧ state b = closed.

End Streaming.

(** ** More string primitives (settings.ts) *)

Module JsText.

(** White space and line terminators among the 8-bit code units: tab,
    line feed, vertical tab, form feed, carriage return, space and the
    no-break space. *)
Definition isWhiteSpace (c : ascii) : bool :=
  let n := nat_of_ascii c in
  (n =? 9)%nat || (n =? 10)%nat || (n =? 11)%nat || (n =? 12)%nat
  || (n =? 13)%nat || (n =? 32)%nat || (n =? 160)%nat.

(** [s.trimStart()] *)
Fixpoint trimStart (s : string) : string :=
  match s with
  | EmptyString => EmptyString
  | String c s' => if isWhiteSpace c then trimStart s' else s
  end.

(** [s.trimEnd()] *)
Fixpoint trimEnd (s : string) : string :=
  match s with
  | EmptyString => EmptyString
  | String c s' =>
      match trimEnd s' with
      | EmptyString => if isWhiteSpace c then EmptyString else String c EmptyString
      | t => String c t
      end
  end.

(** [s.trim()] *)
Definition trim (s : string) : string := trimEnd (trimStart s).

(** Truthiness of a string: every string but the empty one. *)
Definition truthy (s : string) : bool :=
  match s with EmptyString => false | _ => true end.

(** [parts.join(sep)] on an array of strings. *)
Definition join (sep : string) (parts : list string) : string :=
  String.concat sep parts.

(** The rest of [s] after its first [n] units. *)
Fixpoint drop (n : nat) (s : string) : string :=
  match n, s with
  | S n', String _ s' => drop n' s'
  | _, _ => s
  end.

(** [s.replace(pat, rep)] for a string pattern and a replacement without
    dollar signs: the first occurrence only. *)
Fixpoint replaceFirst (pat rep s : string) : string :=
  if String.prefix pat s then rep +:+ drop (String.length pat) s
  else match s with
       | EmptyString => EmptyString
       | String c s' => String c (replaceFirst pat rep s')
       end.

(** [s.replace(/c/g, rep)] for a one-character pattern: every
    occurrence. *)
Fixpoint replaceAllChar (c : ascii) (rep s : string) : string :=
  match s with
  | EmptyString => EmptyString
  | String x s' =>
      if Ascii.eqb x c then rep +:+ replaceAllChar c rep s'
      else String x (replaceAllChar c rep s')
  end.

(** Whether [pat] occurs somewhere in [s], which is when
    [s.replace(pat, ...)] replaces something. *)
Fixpoint occurs (pat s : string) : bool :=
  String.prefix pat s
  || match s with
     | EmptyString => false
     | String _ s' => occurs pat s'
     end.

(** Whether a character occurs in a string. *)
Fixpoint hasChar (c : ascii) (s : string) : bool :=
  match s with
  | EmptyString => false
  | String x s' => Ascii.eqb x c || hasChar c s'
  end.

End JsText.

(** ** Keybind recording (renderer/settings.ts) *)

Module Keybind.

(** What the embedding takes from the host: the platform test behind
    [isMac], [String.prototype.toUpperCase], and the three display
    symbols U+2318, U+21E7 and U+2325, which are not 8-bit code units. *)
Record Host : Type := {
  isMac : bool;
  toUpperCase : string → string;
  symCommand : string;
  symShift : string;
  symOption : string
}.

(** [formatKeybind] *)
Definition formatKeybind (h : Host) (keybind : string) : string :=
  let s := JsText.replaceFirst "CommandOrControl"
             (if isMac h then symCommand h else "Ctrl") keybind in
  let s := JsText.replaceFirst "Command" (symCommand h) s in
  let s := JsText.replaceFirst "Control" "Ctrl" s in
  let s := JsText.replaceFirst "Shift" (symShift h) s in
  let s := JsText.replaceFirst "Alt" (symOption h) s in
  let s := JsText.replaceFirst "Option" (symOption h) s in
  JsText.replaceAllChar "+" " + " s.

(** The fields of a [KeyboardEvent] the code reads. *)
Record KeyboardEvent : Type := {
  key : string;
  metaKey : bool;
  ctrlKey : bool;
  shiftKey : bool;
  altKey : bool
}.

(** The three [if]s that push the modifier names, shared by both
    accelerator builders. *)
Definition modifierParts (e : KeyboardEvent) : list string :=
  let parts : list string := [] in
  let parts := if metaKey e || ctrlKey e then parts ++ ["CommandOrControl"] else parts in
  let parts := if shiftKey e then parts ++ ["Shift"] else parts in
  let parts := if altKey e then parts ++ ["Alt"] else parts in
  parts.

(** [buildAcceleratorFromModifiers] *)
Definition buildAcceleratorFromModifiers (e : KeyboardEvent) : string :=
  JsText.join "+" (modifierParts e).

(** [['Meta', 'Control', 'Shift', 'Alt'].includes(key)] *)
Definition isModifierKey (k : string) : bool :=
  bool_decide (k ∈ ["Meta"; "Control"; "Shift"; "Alt"]).

(** The [keyMap] object, read at a key name: its own nine entries (the
    names an object inherits are not key names). *)
Definition keyMap : list (string * string) :=
  [("ArrowUp", "Up"); ("ArrowDown", "Down"); ("ArrowLeft", "Left");
   ("ArrowRight", "Right"); ("Escape", "Escape"); ("Enter", "Return");
   ("Backspace", "Backspace"); ("Delete", "Delete"); ("Tab", "Tab")].

Definition keyMapLookup (k : string) : option string :=
  snd <$> List.find (λ entry, String.eqb (fst entry) k) keyMap.

(** The normalisation of a key that is not a modifier: the space key,
    upper case for one-character keys, then the special keys. *)
Definition normalizeKey (h : Host) (k : string) : string :=
  let k := if String.eqb k " " then "Space" else k in
  let k := if (String.length k =? 1)%nat then toUpperCase h k else k in
  match keyMapLookup k with
  | Some mapped => mapped
  | None => k
  end.

Record Accelerator : Type := {
  accelerator : string;
  isComplete : bool
}.

(** [keyEventToAccelerator] *)
Definition keyEventToAccelerator (h : Host) (e : KeyboardEvent) : Accelerator :=
  let parts := modifierParts e in
  let isModifierOnly := isModifierKey (key e) in
  let parts := if negb isModifierOnly then parts ++ [normalizeKey h (key e)] else parts in
  {| accelerator := JsText.join "+" parts;
     isComplete := negb isModifierOnly && (2 <=? length parts)%nat |}.

Record Settings : Type := {
  spotlightKeybind : string;
  spotlightPersistHistory : bool
}.

(** The module variables and the part of the page the keybind code
    writes: the text of [keybindDisplay], the recording class of
    [keybindInput] and the persist-history checkbox. *)
Record State : Type := {
  isRecordingKeybind : bool;
  currentSettings : option Settings;
  pendingKeybind : option string;
  displayText : string;
  recordingClass : bool;
  persistChecked : bool
}.

(** A call to [claude.saveSettings]. *)
Inductive Request : Type :=
  | SaveKeybind (keybind : string)
  | SavePersistHistory (value : bool).

Definition setDisplay (t : string) (st : State) : State :=
  {| isRecordingKeybind := isRecordingKeybind st;
     currentSettings := currentSettings st;
     pendingKeybind := pendingKeybind st;
     displayText := t;
     recordingClass := recordingClass st;
     persistChecked := persistChecked st |}.

Definition setPending (p : option string) (st : State) : State :=
  {| isRecordingKeybind := isRecordingKeybind st;
     currentSettings := currentSettings st;
     pendingKeybind := p;
     displayText := displayText st;
     recordingClass := recordingClass st;
     persistChecked := persistChecked st |}.

Definition setCurrentSettings (s : option Settings) (st : State) : State :=
  {| isRecordingKeybind := isRecordingKeybind st;
     currentSettings := s;
     pendingKeybind := pendingKeybind st;
     displayText := displayText st;
     recordingClass := recordingClass st;
     persistChecked := persistChecked st |}.

(** A pending keybind that passes [if (pendingKeybind)]. *)
Definition pendingTruthy (st : State) : option string :=
  match pendingKeybind st with
  | Some k => if JsText.truthy k then Some k else None
  | None => None
  end.

(** [saveKeybind] up to its [await]: nothing without settings, otherwise
    the request is sent. *)
Definition saveKeybind (keybind : string) (st : State) : list Request :=
  match currentSettings st with
  | None => []
  | Some _ => [SaveKeybind keybind]
  end.

(** [saveKeybind] after its [await]: the answer replaces the settings
    and the saved keybind is displayed. *)
Definition saveKeybindDone (h : Host) (keybind : string) (response : option Settings)
    (st : State) : State :=
  setDisplay (formatKeybind h keybind) (setCurrentSettings response st).

(** [stopRecording(save)] *)
Definition stopRecording (h : Host) (save : bool) (st : State) : State * list Request :=
  if negb (isRecordingKeybind st) then (st, [])
  else
    let st1 := {| isRecordingKeybind := false;
                  currentSettings := currentSettings st;
                  pendingKeybind := pendingKeybind st;
                  displayText := displayText st;
                  recordingClass := false;
                  persistChecked := persistChecked st |} in
    let '(st2, out) :=
      match (if save then pendingTruthy st1 else None) with
      | Some k => (st1, saveKeybind k st1)
      | None =>
          match currentSettings st1 with
          | Some s => (setDisplay (formatKeybind h (spotlightKeybind s)) st1, [])
          | None => (st1, [])
          end
      end in
    (setPending None st2, out).

(** The click listener of [keybindInput]. *)
Definition onClick (st : State) : State :=
  if negb (isRecordingKeybind st) then
    {| isRecordingKeybind := true;
       currentSettings := currentSettings st;
       pendingKeybind := None;
       displayText := "Press keys...";
       recordingClass := true;
       persistChecked := persistChecked st |}
  else st.

(** The keydown listener of [keybindInput]. *)
Definition onKeyDown (h : Host) (e : KeyboardEvent) (st : State) : State * list Request :=
  if negb (isRecordingKeybind st) then (st, [])
  else if String.eqb (key e) "Escape" then stopRecording h false st
  else if String.eqb (key e) "Enter" && bool_decide (is_Some (pendingTruthy st))
  then stopRecording h true st
  else
    let result := keyEventToAccelerator h e in
    if JsText.truthy (accelerator result) then
      let st := setDisplay (formatKeybind h (accelerator result)) st in
      if isComplete result then (setPending (Some (accelerator result)) st, [])
      else (st, [])
    else (st, []).

(** The blur listener of [keybindInput]: [stopRecording(!!pendingKeybind)]. *)
Definition onBlur (h : Host) (st : State) : State * list Request :=
  stopRecording h (bool_decide (is_Some (pendingTruthy st))) st.

(** [loadSettings] after its [await]. *)
Definition loadSettingsDone (h : Host) (s : option Settings) (st : State) : State :=
  match s with
  | Some s' =>
      {| isRecordingKeybind := isRecordingKeybind st;
         currentSettings := Some s';
         pendingKeybind := pendingKeybind st;
         displayText := formatKeybind h (spotlightKeybind s');
         recordingClass := recordingClass st;
         persistChecked := spotlightPersistHistory s' |}
  | None => setCurrentSettings None st
  end.

(** [savePersistHistory] up to its [await]. *)
Definition savePersistHistory (value : bool) (st : State) : list Request :=
  match currentSettings st with
  | None => []
  | Some _ => [SavePersistHistory value]
  end.

(** What can happen to the page: the listeners firing and the awaited
    calls coming back. *)
Inductive Event : Type :=
  | Click
  | KeyDown (e : KeyboardEvent)
  | Blur
  | PersistToggled (checked : bool)
  | SettingsLoaded (s : option Settings)
  | KeybindSaved (keybind : string) (response : option Settings)
  | PersistSaved (response : option Settings).

Definition step (h : Host) (st : State) (ev : Event) : State * list Request :=
  match ev with
  | Click => (onClick st, [])
  | KeyDown e => onKeyDown h e st
  | Blur => onBlur h st
  | PersistToggled checked =>
      let st := {| isRecordingKeybind := isRecordingKeybind st;
                   currentSettings := currentSettings st;
                   pendingKeybind := pendingKeybind st;
                   displayText := displayText st;
                   recordingClass := recordingClass st;
                   persistChecked := checked |} in
      (st, savePersistHistory checked st)
  | SettingsLoaded s => (loadSettingsDone h s st, [])
  | KeybindSaved keybind response => (saveKeybindDone h keybind response st, [])
  | PersistSaved response => (setCurrentSettings response st, [])
  end.

(** A run of events: the final state and every request sent, in order. *)
Fixpoint run (h : Host) (evs : list Event) (st : State) : State * list Request :=
  match evs with
  | [] => (st, [])
  | ev :: evs' =>
      let '(st1, out1) := step h st ev in
      let '(st2, out2) := run h evs' st1 in
      (st2, out1 ++ out2)
  end.

(** The page as the script leaves it before any event. *)
Definition initial (display : string) (checked : bool) : State :=
  {| isRecordingKeybind := false;
     currentSettings := None;
     pendingKeybind := None;
     displayText := display;
     recordingClass := false;
     persistChecked := checked |}.

(** Whether one of the four modifier flags of the event is set. *)
Definition anyModifier (e : KeyboardEvent) : bool :=
  metaKey e || ctrlKey e || shiftKey e || altKey e.

(** The events that end a recording with a save attempt: a blur, and a
    key press of Enter. *)
Definition confirms (ev : Event) : bool :=
  match ev with
  | Blur => true
  | KeyDown e => String.eqb (key e) "Enter"
  | _ => false
  end.

(** The events that can store settings: an awaited call that comes back
    with some. *)
Definition bringsSettings (ev : Event) : bool :=
  match ev with
  | SettingsLoaded (Some _) | KeybindSaved _ (Some _) | PersistSaved (Some _) => true
  | _ => false
  end.

(** A host for examples: upper case on the letters a to z only. *)
Definition asciiUpper (c : ascii) : ascii :=
  let n := nat_of_ascii c in
  if (97 <=? n)%nat && (n <=? 122)%nat then ascii_of_nat (n - 32) else c.

Fixpoint mapChars (f : ascii → ascii) (s : string) : string :=
  match s with
  | EmptyString => EmptyString
  | String c s' => String (f c) (mapChars f s')
  end.

Definition exampleHost : Host :=
  {| isMac := false; toUpperCase := mapChars asciiUpper;
     symCommand := "[cmd]"; symShift := "[shift]"; symOption := "[opt]" |}.

End Keybind.

(** ** MCP server settings dialog (renderer/settings.ts) *)

Module ServerDialog.

Record MCPServer : Type := {
  id : string;
  name : string;
  command : string;
  args : list string;
  env : option (list (string * string));
  enabled : bool
}.

(** The page elements the dialog code touches, each [None] when
    [getElementById] found nothing: the [style.display] of the modal,
    the text of its title and the values of the three inputs; and the
    module variables [mcpServers] and [editingServerId]. *)
Record State : Type := {
  mcpServers : list MCPServer;
  editingServerId : option string;
  modal : option string;
  modalTitle : option string;
  serverNameInput : option string;
  serverCommandInput : option string;
  serverArgsInput : option string
}.

(** [showModal(isEdit)] *)
Definition showModal (isEdit : bool) (st : State) : State :=
  match modal st with
  | Some _ =>
      {| mcpServers := mcpServers st;
         editingServerId := editingServerId st;
         modal := Some "flex";
         modalTitle :=
           match modalTitle st with
           | Some _ => Some (if isEdit then "Edit MCP Server" else "Add MCP Server")
           | None => None
           end;
         serverNameInput := serverNameInput st;
         serverCommandInput := serverCommandInput st;
         serverArgsInput := serverArgsInput st |}
  | None => st
  end.

(** [if (input) input.value = v] *)
Definition setValue (v : string) (input : option string) : option string :=
  match input with
  | Some _ => Some v
  | None => None
  end.

(** [hideModal] *)
Definition hideModal (st : State) : State :=
  {| mcpServers := mcpServers st;
     editingServerId := None;
     modal := match modal st with Some _ => Some "none" | None => None end;
     modalTitle := modalTitle st;
     serverNameInput := setValue EmptyString (serverNameInput st);
     serverCommandInput := setValue EmptyString (serverCommandInput st);
     serverArgsInput := setValue EmptyString (serverArgsInput st) |}.

(** [editServer(serverId)] *)
Definition editServer (serverId : string) (st : State) : State :=
  match List.find (λ s, String.eqb (id s) serverId) (mcpServers st) with
  | None => st
  | Some server =>
      showModal true
        {| mcpServers := mcpServers st;
           editingServerId := Some serverId;
           modal := modal st;
           modalTitle := modalTitle st;
           serverNameInput := setValue (name server) (serverNameInput st);
           serverCommandInput := setValue (command server) (serverCommandInput st);
           serverArgsInput := setValue (JsText.join ", " (args server)) (serverArgsInput st) |}
  end.

(** [argsStr ? argsStr.split(',').map(a => a.trim()).filter(Boolean) : []]
    with [argsStr] possibly [undefined]. *)
Definition parseArgs (argsStr : option string) : list string :=
  match argsStr with
  | Some s =>
      if JsText.truthy s
      then List.filter JsText.truthy (map JsText.trim (JsStr.split "," s))
      else []
  | None => []
  end.

(** The calls [saveServer] makes on [claude]. *)
Inductive Request : Type :=
  | UpdateMCPServer (serverId : string) (name command : string) (args : list string)
  | AddMCPServer (name command : string) (args : list string) (enabled : bool).

(** A value that passes [if (x)] for an optional string. *)
Definition truthyOpt (x : option string) : option string :=
  match x with
  | Some s => if JsText.truthy s then Some s else None
  | None => None
  end.

(** [saveServer] up to its first [await]: the three values are read
    with [?.value.trim()], nothing is sent when the name or the command
    is missing or blank, and the call is an update exactly when
    [editingServerId] is set. *)
Definition saveServer (st : State) : option Request :=
  let name := JsText.trim <$> serverNameInput st in
  let command := JsText.trim <$> serverCommandInput st in
  let argsStr := JsText.trim <$> serverArgsInput st in
  match truthyOpt name, truthyOpt command with
  | Some n, Some c =>
      let args := parseArgs argsStr in
      match truthyOpt (editingServerId st) with
      | Some sid => Some (UpdateMCPServer sid n c args)
      | None => Some (AddMCPServer n c args true)
      end
  | _, _ => None
  end.

(** [saveServer] after its awaits: [loadMCPServers] stores the list it
    was given (an empty one for a falsy answer) and [hideModal] runs. *)
Definition saveServerDone (loaded : option (list MCPServer)) (st : State) : State :=
  hideModal
    {| mcpServers := default [] loaded;
       editingServerId := editingServerId st;
       modal := modal st;
       modalTitle := modalTitle st;
       serverNameInput := serverNameInput st;
       serverCommandInput := serverCommandInput st;
       serverArgsInput := serverArgsInput st |}.

(** An argument as the dialog can store it: not empty, no comma, no
    white space at either end. *)
Definition cleanArg (a : string) : Prop :=
  a ≠ EmptyString ∧ JsText.hasChar "," a = false
  ∧ JsText.trimStart a = a ∧ JsText.trimEnd a = a.

(** A value a text input keeps as it is set: one without line breaks,
    which such an input strips. *)
Definition noLineBreak (s : string) : Prop :=
  JsText.hasChar "010" s = false ∧ JsText.hasChar "013" s = false.

(** A name or command as the dialog sends it back unchanged. *)
Definition cleanField (s : string) : Prop :=
  s ≠ EmptyString ∧ JsText.trim s = s ∧ noLineBreak s.

(** A server whose fields the dialog shows and reads back as they are. *)
Definition storable (server : MCPServer) : Prop :=
  id server ≠ EmptyString
  ∧ cleanField (name server) ∧ cleanField (command server)
  ∧ Forall (λ a, cleanArg a ∧ noLineBreak a) (args server).

(** An input that gives [saveServer] nothing to send: a missing element
    or a value of white space only. *)
Definition blank (input : option string) : Prop :=
  match input with
  | Some v => JsText.trim v = EmptyString
  | None => True
  end.

(** A page with the modal, its title and the three inputs present and
    empty, and the given servers. *)
Definition emptyDialog (servers : list MCPServer) : State :=
  {| mcpServers := servers;
     editingServerId := None;
     modal := Some "none";
     modalTitle := Some EmptyString;
     serverNameInput := Some EmptyString;
     serverCommandInput := Some EmptyString;
     serverArgsInput := Some EmptyString |}.

Definition exampleServer : MCPServer :=
  {| id := "srv-1"; name := "files"; command := "npx";
     args := ["-y"; "server-filesystem"; "/tmp"]; env := None; enabled := true |}.

End ServerDialog.

(** ** MCP client (mcp/client.ts) *)

Module MCPClient.

Record MCPTool : Type := { toolName : string }.

(** A connection, with what [getAllTools] reads: [config.name],
    [isConnected] and [tools]. *)
Record MCPConnection : Type := {
  configName : string;
  isConnected : bool;
  tools : list MCPTool
}.

(** The [connections] map: its entries in insertion order. *)
Abbreviation Connections := (list (string * MCPConnection)).

Record ToolEntry : Type := {
  serverId : string;
  serverName : string;
  tool : MCPTool
}.

(** [getConnection(serverId)] *)
Definition getConnection (conns : Connections) (sid : string) : option MCPConnection :=
  snd <$> List.find (λ entry, String.eqb (fst entry) sid) conns.

(** [getAllConnections()] *)
Definition getAllConnections (conns : Connections) : list MCPConnection :=
  map snd conns.

(** [getAllTools()] *)
Definition getAllTools (conns : Connections) : list ToolEntry :=
  let allTools : list ToolEntry := [] in
  foldl (λ allTools entry,
           let '(sid, connection) := entry in
           if negb (isConnected connection) then allTools
           else
             foldl (λ allTools t,
                      allTools ++ [{| serverId := sid;
                                      serverName := configName connection;
                                      tool := t |}])
                   allTools (tools connection))
        allTools conns.

End MCPClient.

(** ** Listener cleanup (preload.ts) *)

Module Preload.

(** The listeners registered on [ipcRenderer], per channel; a listener
    is known by a number. *)
Abbreviation Registry := (gmap string (list nat)).

(** [ipcRenderer.removeAllListeners(channel)] *)
Definition removeAllListeners (channel : string) (reg : Registry) : Registry :=
  delete channel reg.

Definition streamChannels : list string :=
  ["message-stream"; "message-complete"; "message-thinking";
   "message-thinking-stream"; "message-tool-use"; "message-tool-result";
   "message-citation"; "message-tool-approval"; "message-compaction"].

Definition spotlightChannels : list string :=
  ["spotlight-stream"; "spotlight-complete"; "spotlight-thinking";
   "spotlight-thinking-stream"; "spotlight-tool"; "spotlight-tool-result"].

(** [removeStreamListeners]: nine calls, one after the other. *)
Definition removeStreamListeners (reg : Registry) : Registry :=
  let reg := removeAllListeners "message-stream" reg in
  let reg := removeAllListeners "message-complete" reg in
  let reg := removeAllListeners "message-thinking" reg in
  let reg := removeAllListeners "message-thinking-stream" reg in
  let reg := removeAllListeners "message-tool-use" reg in
  let reg := removeAllListeners "message-tool-result" reg in
  let reg := removeAllListeners "message-citation" reg in
  let reg := removeAllListeners "message-tool-approval" reg in
  removeAllListeners "message-compaction" reg.

(** [removeSpotlightListeners]: six calls. *)
Definition removeSpotlightListeners (reg : Registry) : Registry :=
  let reg := removeAllListeners "spotlight-stream" reg in
  let reg := removeAllListeners "spotlight-complete" reg in
  let reg := removeAllListeners "spotlight-thinking" reg in
  let reg := removeAllListeners "spotlight-thinking-stream" reg in
  let reg := removeAllListeners "spotlight-tool" reg in
  removeAllListeners "spotlight-tool-result" reg.

(** The event names of the proposed single utility. *)
Definition proposedEvents : list string :=
  ["stream"; "complete"; "thinking"; "thinking-stream";
   "tool-use"; "tool-result"; "citation"; "tool-approval"; "compaction"].

(** The proposed [removeAllListeners(prefix)]: for each event name the
    channel [prefix-event] is cleared. *)
Definition removeAllListenersProposed (prefix : string) (reg : Registry) : Registry :=
  foldl (λ reg event, removeAllListeners (prefix +:+ "-" +:+ event) reg)
        reg proposedEvents.

(** The proposed [cleanupListeners(eventNames)()] and the inline
    [forEach] alternative: each listed channel is cleared. *)
Definition cleanupListeners (eventNames : list string) (reg : Registry) : Registry :=
  foldl (λ reg channel, removeAllListeners channel reg) reg eventNames.

End Preload.

(** ** The proposed tool badge (renderer/main.ts, after the change) *)

Module BadgeProposal.

(** The proposed [updateToolsBadge]: the count is the length of
    [getSelectedMCPTools()], always written, and the badge is shown when
    it is positive. *)
Definition updateToolsBadge (st : Selection.State) (badge : option Selection.Badge)
    : option Selection.Badge :=
  match badge with
  | None => None
  | Some _ =>
      let count := length (Selection.getSelectedMCPTools st) in
      Some {| Selection.badgeText := Selection.toString count;
              Selection.badgeDisplay := if (0 <? count)%nat then "flex" else "none" |}
  end.

End BadgeProposal.

(** ** Facts about the string primitives *)

Section JsStrFacts.

Lemma string_length_app (a b : string) :
  String.length (a +:+ b) = String.length a + String.length b.
Proof. induction a as [|c a IH]; simpl; [done | by rewrite IH]. Qed.

Lemma substring_take (a b : string) :
  substring 0 (String.length a) (a +:+ b) = a.
Proof.
  induction a as [|c a IH]; simpl.
  - by destruct b.
  - by rewrite IH.
Qed.

Lemma startsWith_char (q : ascii) (s : string) :
  JsStr.startsWith s (String q EmptyString) = true ↔ ∃ t, s = String q t.
Proof.
  unfold JsStr.startsWith. destruct s as [|c s]; simpl.
  - split; [done | by intros [t ?]].
  - destruct (ascii_dec q c) as [->|Hne].
    + split; [by exists s | by destruct s].
    + split; [done | intros [t [= -> _]]; done].
Qed.

(** The unit compared by [endsWith] against a one-character pattern. *)
Lemma endsWith_cons (q c : ascii) (s : string) :
  JsStr.endsWith (String c s) (String q EmptyString) =
  match s with
  | EmptyString => Ascii.eqb c q
  | _ => JsStr.endsWith s (String q EmptyString)
  end.
Proof.
  unfold JsStr.endsWith. destruct s as [|c' s]; simpl.
  - by destruct (Ascii.eqb c q).
  - by rewrite !Nat.sub_0_r.
Qed.

Lemma endsWith_char (q : ascii) (s : string) :
  JsStr.endsWith s (String q EmptyString) = true
  ↔ ∃ t, s = t +:+ String q EmptyString.
Proof.
  induction s as [|c s IH].
  - split; [done | intros [[|??] ?]; done].
  - rewrite endsWith_cons. destruct s as [|c' s].
    + rewrite Ascii.eqb_eq. split.
      * intros ->. by exists EmptyString.
      * intros [[|c1 t] Ht]; simpl in Ht.
        -- by injection Ht.
        -- destruct t; simpl in Ht; discriminate.
    + rewrite IH. split.
      * intros [t ->]. by exists (String c t).
      * intros [[|c1 t] Ht]; simpl in Ht; [done|].
        injection Ht as -> Ht. by exists t.
Qed.

Lemma relIndex_1 (len : nat) : JsStr.relIndex len 1 = Nat.min 1 len.
Proof. reflexivity. Qed.

Lemma relIndex_m1 (len : nat) : JsStr.relIndex len (-1) = len - 1.
Proof. unfold JsStr.relIndex. simpl. lia. Qed.

Lemma slice_wrap (q : ascii) (inner : string) :
  JsStr.slice (String q (inner +:+ String q EmptyString)) 1 (-1) = inner.
Proof.
  unfold JsStr.slice. rewrite relIndex_1, relIndex_m1.
  simpl String.length. rewrite string_length_app. simpl String.length.
  destruct inner as [|c inner]; [done|].
  simpl String.length.
  replace (S (S (String.length inner) + 1) - 1 - Nat.min 1 _)
    with (S (String.length inner)) by lia.
  replace (Nat.min 1 _) with 1 by lia.
  replace (_ <=? 1)%nat with false by (symmetry; apply Nat.leb_gt; lia).
  change (substring 1 ?n (String ?a ?b)) with (substring 0 n b).
  apply (substring_take (String c inner)).
Qed.

End JsStrFacts.

(** ** The sanitizer on strings *)

Lemma quoteTest_wrap (q : ascii) (inner : string) :
  q = DQ ∨ q = SQ → quoteTest (String q (inner +:+ String q EmptyString)) = true.
Proof.
  intros Hq. unfold quoteTest.
  assert (Hs : JsStr.startsWith (String q (inner +:+ String q EmptyString))
                 (String q EmptyString) = true)
    by (apply startsWith_char; eauto).
  assert (He : JsStr.endsWith (String q (inner +:+ String q EmptyString))
                 (String q EmptyString) = true)
    by (apply endsWith_char; by exists (String q inner)).
  destruct Hq as [-> | ->]; unfold dquote, squote; rewrite Hs, He; simpl;
    by rewrite ?orb_true_r.
Qed.

(** A string that starts and ends with [q] is the lone [q] or is wrapped. *)
Lemma starts_ends_shape (q : ascii) (s : string) :
  JsStr.startsWith s (String q EmptyString) = true →
  JsStr.endsWith s (String q EmptyString) = true →
  s = String q EmptyString ∨ ∃ inner, s = String q (inner +:+ String q EmptyString).
Proof.
  intros [t ->]%startsWith_char [u Hu]%endsWith_char.
  destruct u as [|c u]; simpl in Hu.
  - left. by rewrite Hu.
  - right. exists u. injection Hu as Hc Ht. by rewrite Ht.
Qed.

Lemma quoteTest_shape (s : string) :
  quoteTest s = true →
  s = dquote ∨ s = squote ∨
  (∃ inner, s = String DQ (inner +:+ String DQ EmptyString)) ∨
  (∃ inner, s = String SQ (inner +:+ String SQ EmptyString)).
Proof.
  unfold quoteTest. intros [[H1 H2]%andb_true_iff | [H1 H2]%andb_true_iff]%orb_true_iff.
  - destruct (starts_ends_shape DQ s H1 H2); eauto.
  - destruct (starts_ends_shape SQ s H1 H2); eauto.
Qed.

Lemma stripQuotes_wrap (q : ascii) (inner : string) :
  q = DQ ∨ q = SQ → stripQuotes (wrap q inner) = inner.
Proof.
  intros Hq. unfold stripQuotes, wrap.
  rewrite (quoteTest_wrap q inner Hq). apply slice_wrap.
Qed.

Lemma stripQuotes_unwrapped (s : string) :
  ¬ wrappedIn DQ s → ¬ wrappedIn SQ s → s ≠ dquote → s ≠ squote →
  stripQuotes s = s.
Proof.
  intros Hd Hs Hd1 Hs1. unfold stripQuotes.
  destruct (quoteTest s) eqn:Ht; [|done].
  apply quoteTest_shape in Ht as [?|[?|[[inner ->]|[inner ->]]]]; try done.
  - destruct Hd. by exists inner.
  - destruct Hs. by exists inner.
Qed.

(** ** Properties of the argument sanitizer *)

(** The examples of the specification: a flag in double quotes loses
    them, a bare flag is unchanged. *)
Example sanitize_flag :
  sanitizeArg (JsString (wrap DQ "--flag")) = "--flag"
  ∧ sanitizeArg (JsString "--flag") = "--flag".
Proof. split; reflexivity. Qed.



(** C4: on every input that is not a string, [sanitizeArg] returns the
    empty string. *)
Theorem sanitizeArg_non_string (v : JsValue) :
  isString v = false → sanitizeArg v = EmptyString.
Proof. by destruct v. Qed.

Lemma sanitizeArg_non_string_witness :
  isString (JsNumber 42) = false ∧ sanitizeArg (JsNumber 42) = EmptyString.
Proof.
  split; [reflexivity | apply (sanitizeArg_non_string (JsNumber 42)); reflexivity].
Defined.

(** C5 (as stated, refuted): the string made of one double quote is not
    an opening quote, inner text and closing quote, in either kind of
    quote, yet [sanitizeArg] does not return it unchanged. *)
Lemma lone_quote_is_changed :
  ¬ wrappedIn DQ dquote ∧ ¬ wrappedIn SQ dquote
  ∧ sanitizeArg (JsString dquote) ≠ dquote.
Proof.
  split; [|split].
  - intros [inner H]. unfold dquote, wrap in H. injection H as H.
    by destruct inner.
  - intros [inner H]. discriminate H.
  - done.
Qed.

(** C5 (amended): a string made of a quote, any inner text and the same
    quote again loses exactly that outer pair (the inner text, quotes
    included, is returned as it is), and every string that is neither so
    wrapped nor a single quote character is returned unchanged. *)
Theorem sanitizeArg_strips_one_layer :
  (∀ q inner, q = DQ ∨ q = SQ → sanitizeArg (JsString (wrap q inner)) = inner)
  ∧ (∀ s, ¬ wrappedIn DQ s → ¬ wrappedIn SQ s → s ≠ dquote → s ≠ squote →
          sanitizeArg (JsString s) = s).
Proof.
  split.
  - intros q inner Hq. by apply stripQuotes_wrap.
  - intros s ????. by apply stripQuotes_unwrapped.
Qed.

Lemma sanitizeArg_strips_one_layer_witness :
  (DQ = DQ ∨ DQ = SQ)
  ∧ sanitizeArg (JsString (wrap DQ (wrap SQ "--flag"))) = wrap SQ "--flag"
  ∧ ¬ wrappedIn DQ (String DQ "--flag'") ∧ ¬ wrappedIn SQ (String DQ "--flag'")
  ∧ String DQ "--flag'" ≠ dquote ∧ String DQ "--flag'" ≠ squote
  ∧ sanitizeArg (JsString (String DQ "--flag'")) = String DQ "--flag'".
Proof.
  assert (Hd : ¬ wrappedIn DQ (String DQ "--flag'")).
  { intros [inner H]. unfold wrap in H. injection H as H.
    do 7 (destruct inner as [|? inner]; [discriminate H | injection H as _ H]).
    by destruct inner. }
  assert (Hs : ¬ wrappedIn SQ (String DQ "--flag'")).
  { intros [inner H]. discriminate H. }
  split; [by left|].
  split; [apply (proj1 sanitizeArg_strips_one_layer); by left|].
  repeat (split; [done|]).
  by apply (proj2 sanitizeArg_strips_one_layer).
Defined.

(** C10: the quote test accepts a string made of one quote character,
    and [sanitizeArg] returns the empty string for it. *)
Theorem sanitizeArg_lone_quote :
  quoteTest dquote = true ∧ quoteTest squote = true
  ∧ sanitizeArg (JsString dquote) = EmptyString
  ∧ sanitizeArg (JsString squote) = EmptyString.
Proof. repeat split; reflexivity. Qed.

(** ** Facts about the selection functions *)

Section SelectionFacts.
Import Selection.

(** A loop that only pushes: the result is the start followed by what
    each element contributes. *)
Lemma foldl_push {A B} (step : list B → A → list B) (f : A → list B) :
  (∀ acc x, step acc x = acc ++ f x) →
  ∀ l acc, foldl step acc l = acc ++ flat_map f l.
Proof.
  intros Hstep l. induction l as [|x l IH]; intros acc; simpl.
  - by rewrite app_nil_r.
  - by rewrite IH, Hstep, <- app_assoc.
Qed.

Lemma foldl_push_one {A B} (g : A → B) (l : list A) (acc : list B) :
  foldl (λ acc x, acc ++ [g x]) acc l = acc ++ map g l.
Proof.
  revert acc. induction l as [|x l IH]; intros acc; simpl.
  - by rewrite app_nil_r.
  - by rewrite IH, <- app_assoc.
Qed.

(** Two loops over the same list, one building an array and one a
    count, stay in step when each iteration does. *)
Lemma foldl_length_sim {A B} (stepT : list B → A → list B) (stepC : nat → A → nat) :
  (∀ acc x, length (stepT acc x) = stepC (length acc) x) →
  ∀ l acc, length (foldl stepT acc l) = foldl stepC (length acc) l.
Proof.
  intros Hstep l. induction l as [|x l IH]; intros acc; simpl; [done|].
  by rewrite IH, Hstep.
Qed.

Lemma has_true (xs : list string) (x : string) : has xs x = true ↔ x ∈ xs.
Proof. unfold has. apply bool_decide_eq_true. Qed.

Lemma has_false (xs : list string) (x : string) : has xs x = false ↔ x ∉ xs.
Proof. unfold has. apply bool_decide_eq_false. Qed.

Lemma elem_of_add (x : string) (xs : list string) : x ∈ add x xs.
Proof.
  unfold add. destruct (has xs x) eqn:H.
  - by apply has_true.
  - apply elem_of_app. right. by apply list_elem_of_singleton.
Qed.

Lemma getSelectedMCPTools_eq (st : State) :
  getSelectedMCPTools st =
  flat_map (serverTools st) (selectedMCPServers st)
  ++ flat_map (keyTools st) (selectedMCPTools st).
Proof.
  unfold getSelectedMCPTools.
  rewrite (foldl_push _ (keyTools st)).
  - f_equal. rewrite (foldl_push _ (serverTools st)); [done|].
    intros acc sid. unfold serverTools.
    destruct (findServer st sid) as [server|]; [|by rewrite app_nil_r].
    destruct (isConnected server); [|by rewrite app_nil_r].
    apply foldl_push_one.
  - intros acc key. unfold keyTools. destruct (splitKey key) as [sid tn].
    destruct (negb _); by rewrite ?app_nil_r.
Qed.

Lemma elem_of_flat_map {A B} (f : A → list B) (l : list A) (y : B) :
  y ∈ flat_map f l ↔ ∃ x, x ∈ l ∧ y ∈ f x.
Proof.
  rewrite list_elem_of_In, in_flat_map.
  split; intros [x [? ?]]; exists x; by rewrite ?list_elem_of_In in *.
Qed.

Lemma elem_of_serverTools (st : State) (sid : string) (t : SelectedTool) :
  t ∈ serverTools st sid ↔
  ∃ server tn, findServer st sid = Some server ∧ isConnected server = true
               ∧ tn ∈ map name (tools server) ∧ t = selected sid tn.
Proof.
  unfold serverTools, selected. split.
  - destruct (findServer st sid) as [server|]; [|by intros ?%elem_of_nil].
    destruct (isConnected server) eqn:Hc; [|by intros ?%elem_of_nil].
    rewrite list_elem_of_In, in_map_iff. intros (tool & <- & Htool).
    exists server, (name tool). split; [done|]. split; [done|]. split; [|done].
    rewrite list_elem_of_In, in_map_iff. by exists tool.
  - intros (server & tn & -> & -> & Htn & ->).
    rewrite list_elem_of_In, in_map_iff in Htn. destruct Htn as (tool & <- & Htool).
    rewrite list_elem_of_In, in_map_iff. by exists tool.
Qed.

Lemma elem_of_keyTools (st : State) (key : string) (t : SelectedTool) :
  t ∈ keyTools st key ↔
  splitKey key = (serverId t, toolName t) ∧ serverId t ∉ selectedMCPServers st.
Proof.
  unfold keyTools. destruct (splitKey key) as [sid tn].
  destruct (has (selectedMCPServers st) sid) eqn:Hhas; simpl.
  - apply has_true in Hhas. split; [by intros ?%elem_of_nil|].
    intros [[= -> ->] Hn]. done.
  - apply has_false in Hhas. rewrite list_elem_of_singleton. split.
    + by intros ->.
    + intros [[= -> ->] _]. by destruct t.
Qed.

End SelectionFacts.

(** ** Properties of the selection functions *)

Section SelectionProperties.
Import Selection.

(** A tool of a whole-selected server is returned exactly when it is a
    current tool of that server's connected status entry. *)
Lemma whole_selected_live (st : State) (sid tn : string) :
  sid ∈ selectedMCPServers st →
  (selected sid tn ∈ getSelectedMCPTools st ↔
   ∃ server, findServer st sid = Some server ∧ isConnected server = true
             ∧ tn ∈ map name (tools server)).
Proof.
  intros Hsel. rewrite getSelectedMCPTools_eq, elem_of_app, !elem_of_flat_map.
  split.
  - intros [(sid' & Hin & Ht) | (key & Hin & Ht)].
    + apply elem_of_serverTools in Ht as (server & tn' & Hf & Hc & Htn & Heq).
      injection Heq as <- <-. by exists server.
    + apply elem_of_keyTools in Ht as [_ Hn]. done.
  - intros (server & Hf & Hc & Htn). left. exists sid. split; [done|].
    apply elem_of_serverTools. by exists server, tn.
Qed.






(** Scenario A of the specification: files is whole-selected with read
    and write, then rediscovers with read only. *)
Example scenario_A :
  getSelectedMCPTools
    (setServerStatus [filesServer ["read"]]
       (selectServer "files" (mkState [filesServer ["read"; "write"]] [] [])))
  = [selected "files" "read"].
Proof. reflexivity. Qed.


End SelectionProperties.

(** ** Facts about the streaming blocks *)

Section StreamingFacts.
Import Streaming.

Lemma collection_setCollection (k : BlockKind) (m : gmap Z StreamingBlock)
    (sb : StreamingBlocks) :
  collection k (setCollection k m sb) = m.
Proof. by destruct k. Qed.

Lemma textContent_setCollection (k : BlockKind) (m : gmap Z StreamingBlock)
    (sb : StreamingBlocks) :
  textContent (setCollection k m sb) = textContent sb.
Proof. by destruct k. Qed.

Lemma collection_setTextContent (k : BlockKind) (t : string) (sb : StreamingBlocks) :
  collection k (setTextContent t sb) = collection k sb.
Proof. by destruct k. Qed.

Lemma setCollection_twice (k : BlockKind) (m1 m2 : gmap Z StreamingBlock)
    (sb : StreamingBlocks) :
  setCollection k m2 (setCollection k m1 sb) = setCollection k m2 sb.
Proof. by destruct k. Qed.

(** Opening an index that has no entry stores an empty open block. *)
Lemma open_fresh (k : BlockKind) (i : Z) (a : Assembler) :
  collection k (blocks a) !! i = None →
  collection k (blocks (open_ k i a)) !! i
    = Some {| index := i; kind := k; content := EmptyString; state := open |}
  ∧ textContent (blocks (open_ k i a)) = textContent (blocks a).
Proof.
  intros Hnone. unfold open_. rewrite Hnone. simpl.
  by rewrite collection_setCollection, textContent_setCollection, lookup_insert_eq.
Qed.

(** Appending to an open block of a kind other than text extends its
    content and nothing else of the block. *)
Lemma append_open (k : BlockKind) (i : Z) (f : string) (a : Assembler)
    (b : StreamingBlock) :
  k ≠ text → collection k (blocks a) !! i = Some b → state b = open →
  collection k (blocks (append k i f a)) !! i = Some (appendContent f b).
Proof.
  intros Hk Hb Hst. unfold append. rewrite Hb, Hst.
  destruct k; try done; simpl; apply lookup_insert_eq.
Qed.

(** Appending to an open text block extends the running text and leaves
    the entry as it is. *)
Lemma append_open_text (i : Z) (f : string) (a : Assembler) (b : StreamingBlock) :
  collection text (blocks a) !! i = Some b → state b = open →
  collection text (blocks (append text i f a)) !! i = Some b
  ∧ textContent (blocks (append text i f a)) = textContent (blocks a) +:+ f.
Proof. intros Hb Hst. unfold append. rewrite Hb, Hst. by simpl in *. Qed.

Lemma close_present (k : BlockKind) (i : Z) (a : Assembler) (b : StreamingBlock) :
  collection k (blocks a) !! i = Some b →
  collection k (blocks (close k i a)) !! i = Some (markClosed b)
  ∧ textContent (blocks (close k i a)) = textContent (blocks a).
Proof.
  intros Hb. unfold close. rewrite Hb. simpl.
  by rewrite collection_setCollection, textContent_setCollection, lookup_insert_eq.
Qed.

Lemma string_app_assoc (a b c : string) : (a +:+ b) +:+ c = a +:+ (b +:+ c).
Proof.
  induction a as [|x a IH]; [done|].
  change (String x ((a +:+ b) +:+ c) = String x (a +:+ (b +:+ c))).
  by rewrite IH.
Qed.

Lemma run_blockLife (k : BlockKind) (i : Z) (f1 f2 : string) (a : Assembler) :
  run (blockLife k i f1 f2) a
  = close k i (append k i f2 (append k i f1 (open_ k i a))).
Proof. reflexivity. Qed.

(** The life of a block of a kind other than text, on a fresh index. *)
Lemma blockLife_indexed (k : BlockKind) (i : Z) (f1 f2 : string) (a : Assembler) :
  k ≠ text → collection k (blocks a) !! i = None →
  collection k (blocks (run (blockLife k i f1 f2) a)) !! i
    = Some {| index := i; kind := k; content := f1 +:+ f2; state := closed |}.
Proof.
  intros Hk Hnone. rewrite run_blockLife.
  destruct (open_fresh k i a Hnone) as [Ho _].
  pose proof (append_open k i f1 _ _ Hk Ho eq_refl) as H1.
  pose proof (append_open k i f2 _ _ Hk H1 eq_refl) as H2.
  by destruct (close_present k i _ _ H2) as [-> _].
Qed.

(** The life of a text block on a fresh index. *)
Lemma blockLife_text (i : Z) (f1 f2 : string) (a : Assembler) :
  collection text (blocks a) !! i = None →
  collection text (blocks (run (blockLife text i f1 f2) a)) !! i
    = Some {| index := i; kind := text; content := EmptyString; state := closed |}
  ∧ textContent (blocks (run (blockLife text i f1 f2) a))
    = textContent (blocks a) +:+ (f1 +:+ f2).
Proof.
  intros Hnone. rewrite run_blockLife.
  destruct (open_fresh text i a Hnone) as [Ho Hto].
  destruct (append_open_text i f1 _ _ Ho eq_refl) as [H1 Ht1].
  destruct (append_open_text i f2 _ _ H1 eq_refl) as [H2 Ht2].
  destruct (close_present text i _ _ H2) as [-> ->].
  split; [done|]. by rewrite Ht2, Ht1, Hto, string_app_assoc.
Qed.

End StreamingFacts.

(** ** Properties of the streaming blocks *)

Section StreamingProperties.
Import Streaming.






(** C9: [resetStreamingBlocks] leaves the three block maps empty and
    the running text empty, and running it a second time changes
    nothing more. *)
Theorem resetStreamingBlocks_clears (sb : StreamingBlocks) :
  thinkingBlocks (resetStreamingBlocks sb) = ∅
  ∧ toolBlocks (resetStreamingBlocks sb) = ∅
  ∧ textBlocks (resetStreamingBlocks sb) = ∅
  ∧ textContent (resetStreamingBlocks sb) = EmptyString
  ∧ resetStreamingBlocks (resetStreamingBlocks sb) = resetStreamingBlocks sb.
Proof. repeat split. Qed.

End StreamingProperties.

(** ** Facts about trimming, splitting and joining *)

Section JsTextFacts.
Import JsText.

Lemma app_cons (c : ascii) (a b : string) : String c a +:+ b = String c (a +:+ b).
Proof. reflexivity. Qed.

Lemma app_empty_r (a : string) : a +:+ EmptyString = a.
Proof. induction a as [|c a IH]; [done|]. by rewrite app_cons, IH. Qed.

Lemma app_eq_empty (a b : string) : a +:+ b = EmptyString → a = EmptyString ∧ b = EmptyString.
Proof.
  destruct a as [|c a]; intros H.
  - split; [done | exact H].
  - rewrite app_cons in H. discriminate H.
Qed.

Lemma trimStart_length (s : string) :
  (String.length (trimStart s) <= String.length s)%nat.
Proof.
  induction s as [|c s IH]; simpl; [done|].
  destruct (isWhiteSpace c); simpl; lia.
Qed.

(** A string that [trimStart] leaves alone is empty or starts with a
    character that is not white space. *)
Lemma trimStart_fixed (s : string) :
  trimStart s = s ↔
  s = EmptyString ∨ ∃ c s', s = String c s' ∧ isWhiteSpace c = false.
Proof.
  destruct s as [|c s]; simpl.
  - split; [by left | done].
  - destruct (isWhiteSpace c) eqn:Hc.
    + split.
      * intros H. pose proof (trimStart_length s) as Hl.
        rewrite H in Hl. simpl in Hl. lia.
      * intros [?|(c' & s' & [= -> ->] & Hc')]; [done | congruence].
    + split; [|done]. intros _. right. by exists c, s.
Qed.

Lemma trimStart_idem (s : string) : trimStart (trimStart s) = trimStart s.
Proof.
  induction s as [|c s IH]; simpl; [done|].
  destruct (isWhiteSpace c) eqn:Hc; [done|]. simpl. by rewrite Hc.
Qed.

Lemma trimEnd_cons (c : ascii) (s : string) :
  trimEnd (String c s) =
  if String.eqb (trimEnd s) EmptyString && isWhiteSpace c then EmptyString
  else String c (trimEnd s).
Proof. simpl. destruct (trimEnd s); simpl; by destruct (isWhiteSpace c). Qed.

Lemma trimEnd_idem (s : string) : trimEnd (trimEnd s) = trimEnd s.
Proof.
  induction s as [|c s IH]; [done|].
  rewrite trimEnd_cons.
  destruct (String.eqb (trimEnd s) EmptyString && isWhiteSpace c) eqn:Hb; [done|].
  by rewrite trimEnd_cons, IH, Hb.
Qed.

(** Trimming the end keeps a start that is not white space. *)
Lemma trimStart_trimEnd (s : string) :
  trimStart s = s → trimStart (trimEnd s) = trimEnd s.
Proof.
  intros [->|(c & s' & -> & Hc)]%trimStart_fixed; [done|].
  rewrite trimEnd_cons. rewrite Hc, andb_false_r. simpl. by rewrite Hc.
Qed.

Lemma trim_trimStart (s : string) : trimStart (trim s) = trim s.
Proof. unfold trim. apply trimStart_trimEnd, trimStart_idem. Qed.

Lemma trim_trimEnd (s : string) : trimEnd (trim s) = trim s.
Proof. unfold trim. apply trimEnd_idem. Qed.

Lemma trim_fixed (s : string) : trimStart s = s → trimEnd s = s → trim s = s.
Proof. unfold trim. by intros -> ->. Qed.

(** A string with nothing to trim at its end stays so behind any
    prefix. *)
Lemma trimEnd_app (a b : string) :
  b ≠ EmptyString → trimEnd b = b → trimEnd (a +:+ b) = a +:+ b.
Proof.
  intros Hb Hfix. induction a as [|c a IH]; [done|].
  rewrite app_cons, trimEnd_cons, IH.
  destruct (String.eqb_spec (a +:+ b) EmptyString) as [He|_]; [|done].
  by apply app_eq_empty in He as [_ ?].
Qed.

Lemma hasChar_app (c : ascii) (a b : string) :
  hasChar c (a +:+ b) = hasChar c a || hasChar c b.
Proof.
  induction a as [|x a IH]; [done|].
  rewrite app_cons. simpl. by rewrite IH, orb_assoc.
Qed.

Lemma hasChar_trimStart (c : ascii) (s : string) :
  hasChar c s = false → hasChar c (trimStart s) = false.
Proof.
  induction s as [|x s IH]; simpl; [done|].
  intros [Hx Hs]%orb_false_iff. destruct (isWhiteSpace x); [by apply IH|].
  simpl. by rewrite Hx, Hs.
Qed.

Lemma hasChar_trimEnd (c : ascii) (s : string) :
  hasChar c s = false → hasChar c (trimEnd s) = false.
Proof.
  induction s as [|x s IH]; [done|].
  intros H. rewrite trimEnd_cons. simpl in H.
  apply orb_false_iff in H as [Hx Hs].
  destruct (_ && _); [done|]. simpl. by rewrite Hx, IH.
Qed.

(** [split] returns at least one piece, and no piece holds the
    separator. *)
Lemma split_nonempty (sep : ascii) (s : string) : JsStr.split sep s ≠ [].
Proof.
  induction s as [|c s IH]; simpl; [done|].
  destruct (Ascii.eqb c sep); [done|]. by destruct (JsStr.split sep s).
Qed.

Lemma split_pieces_no_sep (sep : ascii) (s p : string) :
  p ∈ JsStr.split sep s → hasChar sep p = false.
Proof.
  revert p. induction s as [|c s IH]; simpl; intros p Hp.
  - apply list_elem_of_singleton in Hp as ->. done.
  - destruct (Ascii.eqb c sep) eqn:Hc.
    + apply elem_of_cons in Hp as [->|Hp]; [done | by apply IH].
    + destruct (JsStr.split sep s) as [|q qs] eqn:Hs.
      * by destruct (split_nonempty sep s).
      * apply elem_of_cons in Hp as [->|Hp].
        -- simpl. rewrite Hc. apply IH. by left.
        -- apply IH. by right.
Qed.

Lemma split_no_sep (sep : ascii) (a : string) :
  hasChar sep a = false → JsStr.split sep a = [a].
Proof.
  induction a as [|c a IH]; simpl; [done|].
  intros [Hc Ha]%orb_false_iff. by rewrite Hc, IH.
Qed.

Lemma split_app_sep (sep : ascii) (a t : string) :
  hasChar sep a = false →
  JsStr.split sep (a +:+ String sep t) = a :: JsStr.split sep t.
Proof.
  induction a as [|c a IH]; intros Ha.
  - simpl. by rewrite Ascii.eqb_refl.
  - simpl in Ha. apply orb_false_iff in Ha as [Hc Ha].
    rewrite app_cons. simpl. by rewrite Hc, IH.
Qed.

Lemma split_cons_other (sep c : ascii) (s : string) :
  Ascii.eqb c sep = false →
  JsStr.split sep (String c s) =
  match JsStr.split sep s with
  | p :: ps => String c p :: ps
  | [] => [String c EmptyString]
  end.
Proof. intros H. simpl. by rewrite H. Qed.

Lemma join_cons2 (sep a b : string) (l : list string) :
  join sep (a :: b :: l) = a +:+ sep +:+ join sep (b :: l).
Proof. reflexivity. Qed.

End JsTextFacts.

(** ** Facts about the server dialog *)

Section ServerDialogFacts.
Import JsText ServerDialog.

Lemma truthy_iff (s : string) : truthy s = true ↔ s ≠ EmptyString.
Proof. destruct s; simpl; split; done. Qed.

Lemma truthyOpt_Some (x : option string) (s : string) :
  truthyOpt x = Some s ↔ x = Some s ∧ s ≠ EmptyString.
Proof.
  unfold truthyOpt. destruct x as [v|]; [|split; [done | by intros [? _]]].
  destruct v as [|c v]; simpl.
  - split; [done | by intros [[= <-] ?]].
  - split; [by intros [= <-] | by intros [[= <-] _]].
Qed.

Lemma truthyOpt_None (x : option string) :
  truthyOpt x = None ↔ x = None ∨ x = Some EmptyString.
Proof.
  unfold truthyOpt. destruct x as [[|c v]|]; simpl.
  - split; [by right | done].
  - split; [done | by intros [?|?]].
  - split; [by left | done].
Qed.

Lemma cleanArg_trim (a : string) : cleanArg a → trim a = a.
Proof. intros (_ & _ & Hs & He). by apply trim_fixed. Qed.

(** The pieces of a joined list of comma-free strings: the first as it
    is, the others behind the space of the separator. *)
Lemma split_join (a : string) (l : list string) :
  Forall (λ x, hasChar "," x = false) (a :: l) →
  JsStr.split "," (join ", " (a :: l)) = a :: map (String " ") l.
Proof.
  revert a. induction l as [|b r IH]; intros a Hall.
  - apply split_no_sep. by inversion Hall.
  - inversion Hall as [|?? Ha Hrest]; subst.
    rewrite join_cons2.
    change (a +:+ ", " +:+ join ", " (b :: r))
      with (a +:+ String "," (String " " (join ", " (b :: r)))).
    rewrite split_app_sep by done.
    f_equal. rewrite split_cons_other by done.
    by rewrite (IH b Hrest).
Qed.

Lemma join_nonempty (sep a : string) (l : list string) :
  a ≠ EmptyString → join sep (a :: l) ≠ EmptyString.
Proof.
  intros Ha. destruct l as [|b l]; [done|].
  rewrite join_cons2. by intros [? _]%app_eq_empty.
Qed.

Lemma join_trimEnd (sep : string) (l : list string) :
  Forall (λ x, x ≠ EmptyString ∧ trimEnd x = x) l →
  trimEnd (join sep l) = join sep l.
Proof.
  induction l as [|a [|b r] IH]; intros Hall; [done | |].
  - inversion Hall as [|?? [_ Ha] _]; subst. exact Ha.
  - inversion Hall as [|?? [_ Ha] Hrest]; subst.
    rewrite join_cons2.
    rewrite <- (string_app_assoc a sep).
    apply trimEnd_app; [|by apply IH].
    apply join_nonempty. by inversion Hrest as [|?? [? _] _].
Qed.

Lemma join_trimStart (sep a : string) (l : list string) :
  a ≠ EmptyString → trimStart a = a → trimStart (join sep (a :: l)) = join sep (a :: l).
Proof.
  intros Hne [->|(c & a' & -> & Hc)]%trimStart_fixed; [done|].
  apply trimStart_fixed. right.
  destruct l as [|b l].
  - by exists c, a'.
  - rewrite join_cons2, app_cons. by eexists _, _.
Qed.

Lemma join_trim (l : list string) :
  Forall cleanArg l → trim (join ", " l) = join ", " l.
Proof.
  intros Hall. destruct l as [|a l]; [done|].
  apply trim_fixed.
  - inversion Hall as [|?? (Hne & _ & Hs & _) _]; subst. by apply join_trimStart.
  - apply join_trimEnd. eapply Forall_impl; [exact Hall|].
    by intros x (? & _ & _ & ?).
Qed.

Lemma filter_truthy_id (l : list string) :
  Forall (λ x, x ≠ EmptyString) l → List.filter truthy l = l.
Proof.
  induction 1 as [|a l Ha _ IH]; simpl; [done|].
  apply truthy_iff in Ha. by rewrite Ha, IH.
Qed.

Lemma parseArgs_join (l : list string) :
  Forall cleanArg l → parseArgs (Some (trim (join ", " l))) = l.
Proof.
  intros Hall. rewrite join_trim by done.
  destruct l as [|a l]; [done|].
  assert (Hne : join ", " (a :: l) ≠ EmptyString).
  { apply join_nonempty. by inversion Hall as [|?? [? _] _]. }
  unfold parseArgs. apply truthy_iff in Hne. rewrite Hne.
  rewrite split_join.
  2:{ eapply Forall_impl; [exact Hall|]. by intros x (_ & ? & _). }
  inversion Hall as [|?? Ha Hl]; subst.
  assert (Hmap : map trim (a :: map (String " ") l) = a :: l).
  { simpl. rewrite (cleanArg_trim a Ha). f_equal.
    clear Hall Hne Ha. induction Hl as [|b r Hb _ IH]; simpl; [done|].
    f_equal; [|exact IH].
    change (trim (String " " b)) with (trim b). by apply cleanArg_trim. }
  rewrite Hmap. apply filter_truthy_id.
  eapply Forall_impl; [exact Hall|]. by intros x [? _].
Qed.

End ServerDialogFacts.

(** ** Properties of the server dialog *)

Section ServerDialogProperties.
Import JsText ServerDialog.

(** X1: every argument [saveServer] parses out of the arguments field is
    not empty, holds no comma and has no white space at either end. *)
Theorem parseArgs_clean (argsStr : option string) (a : string) :
  a ∈ parseArgs argsStr → cleanArg a.
Proof.
  unfold parseArgs. destruct argsStr as [s|]; [|by intros ?%elem_of_nil].
  destruct (truthy s); [|by intros ?%elem_of_nil].
  rewrite list_elem_of_In, filter_In, in_map_iff.
  intros [(p & <- & Hp) Hne]. apply list_elem_of_In in Hp.
  split; [by apply truthy_iff|]. split; [|split].
  - apply hasChar_trimEnd, hasChar_trimStart. by eapply split_pieces_no_sep.
  - apply trim_trimStart.
  - apply trim_trimEnd.
Qed.

Lemma parseArgs_clean_witness :
  "--port" ∈ parseArgs (Some " -y , --port,, 80 ") ∧ cleanArg "--port".
Proof.
  assert (H : "--port" ∈ parseArgs (Some " -y , --port,, 80 ")).
  { apply list_elem_of_In. simpl. tauto. }
  split; [exact H|]. exact (parseArgs_clean _ _ H).
Defined.



Lemma showModal_fields (isEdit : bool) (st : State) :
  editingServerId (showModal isEdit st) = editingServerId st
  ∧ serverNameInput (showModal isEdit st) = serverNameInput st
  ∧ serverCommandInput (showModal isEdit st) = serverCommandInput st
  ∧ serverArgsInput (showModal isEdit st) = serverArgsInput st.
Proof. unfold showModal. by destruct (modal st). Qed.

Lemma saveServer_reads (st : State) :
  saveServer st =
  match truthyOpt (trim <$> serverNameInput st),
        truthyOpt (trim <$> serverCommandInput st) with
  | Some n, Some c =>
      match truthyOpt (editingServerId st) with
      | Some sid => Some (UpdateMCPServer sid n c (parseArgs (trim <$> serverArgsInput st)))
      | None => Some (AddMCPServer n c (parseArgs (trim <$> serverArgsInput st)) true)
      end
  | _, _ => None
  end.
Proof. reflexivity. Qed.

(** X3: editing a stored server and saving without touching the fields
    sends an update for that server with exactly its stored name,
    command and arguments, provided the three inputs exist and the
    stored fields are ones the dialog can hold (not blank, trimmed, no
    line break, arguments without commas). *)
Theorem edit_then_save_sends_stored_fields (st : State) (server : MCPServer) :
  List.find (λ s, String.eqb (id s) (id server)) (mcpServers st) = Some server →
  is_Some (serverNameInput st) → is_Some (serverCommandInput st) →
  is_Some (serverArgsInput st) →
  storable server →
  saveServer (editServer (id server) st)
  = Some (UpdateMCPServer (id server) (name server) (command server) (args server)).
Proof.
  intros Hfind [vn Hn] [vc Hc] [va Ha] (Hid & (Hn0 & Hnt & _) & (Hc0 & Hct & _) & Hargs).
  rewrite saveServer_reads. unfold editServer. rewrite Hfind.
  destruct (showModal_fields true
    {| mcpServers := mcpServers st;
       editingServerId := Some (id server);
       modal := modal st;
       modalTitle := modalTitle st;
       serverNameInput := setValue (name server) (serverNameInput st);
       serverCommandInput := setValue (command server) (serverCommandInput st);
       serverArgsInput := setValue (join ", " (args server)) (serverArgsInput st) |})
    as (-> & -> & -> & ->).
  cbn [serverNameInput serverCommandInput serverArgsInput editingServerId].
  rewrite Hn, Hc, Ha.
  change (trim <$> setValue (name server) (Some vn)) with (Some (trim (name server))).
  change (trim <$> setValue (command server) (Some vc)) with (Some (trim (command server))).
  change (trim <$> setValue (join ", " (args server)) (Some va))
    with (Some (trim (join ", " (args server)))).
  rewrite Hnt, Hct.
  assert (Ht : ∀ s, s ≠ EmptyString → truthyOpt (Some s) = Some s).
  { intros s Hs. by apply truthyOpt_Some. }
  rewrite !Ht by done. rewrite parseArgs_join; [done|].
  eapply Forall_impl; [exact Hargs|]. by intros a [? _].
Qed.

Lemma edit_then_save_sends_stored_fields_witness :
  let st := emptyDialog [exampleServer] in
  List.find (λ s, String.eqb (id s) (id exampleServer)) (mcpServers st) = Some exampleServer
  ∧ is_Some (serverNameInput st) ∧ is_Some (serverCommandInput st)
  ∧ is_Some (serverArgsInput st) ∧ storable exampleServer
  ∧ saveServer (editServer "srv-1" st)
    = Some (UpdateMCPServer "srv-1" "files" "npx" ["-y"; "server-filesystem"; "/tmp"]).
Proof.
  intros st.
  assert (Hs : storable exampleServer).
  { split; [done|]. split; [by repeat split|]. split; [by repeat split|].
    repeat constructor; done. }
  split; [reflexivity|]. do 3 (split; [by eexists|]). split; [exact Hs|].
  apply (edit_then_save_sends_stored_fields st exampleServer);
    [reflexivity | by eexists | by eexists | by eexists | exact Hs].
Defined.


(** X5: [saveServer] sends nothing exactly when the name or the command
    input is missing or holds white space only. *)
Theorem saveServer_none_iff_blank (st : State) :
  saveServer st = None ↔ blank (serverNameInput st) ∨ blank (serverCommandInput st).
Proof.
  rewrite saveServer_reads. unfold blank.
  destruct (truthyOpt (trim <$> serverNameInput st)) as [n|] eqn:Hn.
  - apply truthyOpt_Some in Hn as [Hn Hn0].
    destruct (serverNameInput st) as [vn|]; [|done]. injection Hn as Hn.
    destruct (truthyOpt (trim <$> serverCommandInput st)) as [c|] eqn:Hc.
    + apply truthyOpt_Some in Hc as [Hc Hc0].
      destruct (serverCommandInput st) as [vc|]; [|done]. injection Hc as Hc.
      split; [by destruct (truthyOpt (editingServerId st))|].
      intros [?|?]; congruence.
    + split; [|done]. intros _. right.
      destruct (serverCommandInput st) as [v|]; [|done].
      apply truthyOpt_None in Hc as [Hc|Hc]; simpl in Hc; congruence.
  - split; [|done]. intros _. left.
    destruct (serverNameInput st) as [v|]; [|done].
    apply truthyOpt_None in Hn as [Hn|Hn]; simpl in Hn; congruence.
Qed.

End ServerDialogProperties.

(** ** Facts about the keybind recorder *)

Section KeybindFacts.
Import JsText Keybind.
Context (h : Host).

#[local] Arguments keyEventToAccelerator : simpl never.
#[local] Arguments formatKeybind : simpl never.

Lemma stopRecording_state (save : bool) (st : State) :
  isRecordingKeybind st = true →
  isRecordingKeybind (stopRecording h save st).1 = false
  ∧ pendingKeybind (stopRecording h save st).1 = None
  ∧ currentSettings (stopRecording h save st).1 = currentSettings st.
Proof.
  intros Hrec. unfold stopRecording. rewrite Hrec. simpl.
  destruct save; [destruct (pendingTruthy _)|]; simpl;
    by destruct (currentSettings st).
Qed.

Lemma stopRecording_idle (save : bool) (st : State) :
  isRecordingKeybind st = false → stopRecording h save st = (st, []).
Proof. intros Hrec. unfold stopRecording. by rewrite Hrec. Qed.

Lemma pendingTruthy_Some (st : State) (k : string) :
  pendingTruthy st = Some k → pendingKeybind st = Some k ∧ k ≠ EmptyString.
Proof.
  unfold pendingTruthy. destruct (pendingKeybind st) as [[|c p]|]; simpl; try done.
  by intros [= <-].
Qed.

(** What [stopRecording] sends: the pending keybind, and only when asked
    to save with settings present. *)
Lemma stopRecording_out (save : bool) (st : State) (r : Request) :
  r ∈ (stopRecording h save st).2 →
  ∃ k, r = SaveKeybind k ∧ save = true ∧ pendingKeybind st = Some k
       ∧ is_Some (currentSettings st).
Proof.
  unfold stopRecording. destruct (isRecordingKeybind st); simpl; [|by intros ?%elem_of_nil].
  destruct save; simpl.
  - destruct (pendingTruthy _) as [k|] eqn:Hk.
    + apply pendingTruthy_Some in Hk as [Hk _]. simpl in Hk.
      unfold saveKeybind. simpl. destruct (currentSettings st) eqn:Hs; simpl.
      * intros ->%list_elem_of_singleton. exists k. by eauto.
      * by intros ?%elem_of_nil.
    + destruct (currentSettings st); simpl; by intros ?%elem_of_nil.
  - destruct (currentSettings st); simpl; by intros ?%elem_of_nil.
Qed.

Lemma step_out_pending (st : State) (ev : Event) (k : string) :
  SaveKeybind k ∈ (step h st ev).2 →
  confirms ev = true ∧ pendingKeybind st = Some k ∧ is_Some (currentSettings st).
Proof.
  destruct ev as [|e| | | | |]; simpl; try by intros ?%elem_of_nil.
  - unfold onKeyDown. remember (keyEventToAccelerator h e) as result eqn:Hres.
    destruct (isRecordingKeybind st); simpl; [|by intros ?%elem_of_nil].
    destruct (String.eqb (key e) "Escape") eqn:Hesc.
    { intros (k' & _ & ? & _)%stopRecording_out. done. }
    destruct (String.eqb (key e) "Enter") eqn:Hent; simpl.
    + destruct (bool_decide _).
      * intros (k' & [= <-] & _ & ? & ?)%stopRecording_out. done.
      * destruct (truthy (accelerator result)); [destruct (isComplete result)|];
          by intros ?%elem_of_nil.
    + destruct (truthy (accelerator result)); [destruct (isComplete result)|];
        by intros ?%elem_of_nil.
  - unfold onBlur. intros (k' & [= <-] & _ & ? & ?)%stopRecording_out. done.
  - unfold savePersistHistory. simpl. destruct (currentSettings st); simpl.
    + by intros [=]%list_elem_of_singleton.
    + by intros ?%elem_of_nil.
Qed.

(** Where a pending keybind comes from: it was pending before, or the
    event is a key press whose accelerator is complete. *)
Lemma step_pending (st : State) (ev : Event) (k : string) :
  pendingKeybind (step h st ev).1 = Some k →
  pendingKeybind st = Some k
  ∨ ∃ e, ev = KeyDown e ∧ isComplete (keyEventToAccelerator h e) = true
         ∧ k = accelerator (keyEventToAccelerator h e) ∧ k ≠ EmptyString.
Proof.
  destruct ev as [|e| | |s|kb resp|resp]; simpl.
  - unfold onClick. destruct (isRecordingKeybind st); simpl; [by left | done].
  - unfold onKeyDown. remember (keyEventToAccelerator h e) as result eqn:Hres.
    destruct (isRecordingKeybind st) eqn:Hrec; simpl; [|by left].
    destruct (String.eqb (key e) "Escape").
    { destruct (stopRecording_state false st Hrec) as (_ & -> & _). done. }
    destruct (String.eqb (key e) "Enter" && bool_decide _).
    { destruct (stopRecording_state true st Hrec) as (_ & -> & _). done. }
    destruct (truthy (accelerator result)) eqn:Ht; [|by left].
    destruct (isComplete result) eqn:Hc; simpl; [|by left].
    intros [= <-]. right. exists e. subst result. repeat split; try done.
    by apply truthy_iff.
  - unfold onBlur. destruct (isRecordingKeybind st) eqn:Hrec.
    + destruct (stopRecording_state (bool_decide (is_Some (pendingTruthy st))) st Hrec)
        as (_ & -> & _). done.
    + rewrite stopRecording_idle by done. by left.
  - by left.
  - unfold loadSettingsDone. destruct s; simpl; by left.
  - by left.
  - by left.
Qed.

Lemma step_invariant (st : State) (ev : Event) :
  (isRecordingKeybind st = false → pendingKeybind st = None) →
  isRecordingKeybind (step h st ev).1 = false → pendingKeybind (step h st ev).1 = None.
Proof.
  intros Inv. destruct ev as [|e| | |s|kb resp|resp]; simpl.
  - unfold onClick. destruct (isRecordingKeybind st) eqn:Hrec; simpl; [congruence | done].
  - unfold onKeyDown. remember (keyEventToAccelerator h e) as result eqn:Hres.
    destruct (isRecordingKeybind st) eqn:Hrec; simpl; [|by auto].
    destruct (String.eqb (key e) "Escape").
    { by destruct (stopRecording_state false st Hrec) as (_ & -> & _). }
    destruct (String.eqb (key e) "Enter" && bool_decide _).
    { by destruct (stopRecording_state true st Hrec) as (_ & -> & _). }
    destruct (truthy (accelerator result)); [destruct (isComplete result)|];
      simpl; congruence.
  - unfold onBlur. destruct (isRecordingKeybind st) eqn:Hrec.
    + by destruct (stopRecording_state (bool_decide (is_Some (pendingTruthy st))) st Hrec)
        as (_ & -> & _).
    + rewrite stopRecording_idle by done. by auto.
  - exact Inv.
  - unfold loadSettingsDone. destruct s; simpl; exact Inv.
  - exact Inv.
  - exact Inv.
Qed.

Lemma run_cons (ev : Event) (evs : list Event) (st : State) :
  run h (ev :: evs) st =
  ((run h evs (step h st ev).1).1, (step h st ev).2 ++ (run h evs (step h st ev).1).2).
Proof.
  cbn [run]. destruct (step h st ev) as [st1 out1]. cbn [fst snd].
  destruct (run h evs st1) as [st2 out2]. reflexivity.
Qed.

Lemma run_invariant (evs : list Event) (st : State) :
  (isRecordingKeybind st = false → pendingKeybind st = None) →
  isRecordingKeybind (run h evs st).1 = false → pendingKeybind (run h evs st).1 = None.
Proof.
  revert st. induction evs as [|ev evs IH]; intros st Inv; [exact Inv|].
  rewrite run_cons. simpl. apply IH. by apply step_invariant.
Qed.

Lemma run_saved (evs : list Event) (st : State) (Q : string → Prop) (k : string) :
  (∀ k', pendingKeybind st = Some k' → Q k') →
  SaveKeybind k ∈ (run h evs st).2 →
  Q k ∨ ∃ e, KeyDown e ∈ evs ∧ isComplete (keyEventToAccelerator h e) = true
             ∧ k = accelerator (keyEventToAccelerator h e) ∧ k ≠ EmptyString.
Proof.
  revert st Q. induction evs as [|ev evs IH]; intros st Q HQ; [by intros ?%elem_of_nil|].
  rewrite run_cons. simpl. intros [Hin|Hin]%elem_of_app.
  - left. apply HQ. by apply step_out_pending in Hin as (_ & ? & _).
  - apply (IH _ (λ k', Q k' ∨ ∃ e, ev = KeyDown e
                    ∧ isComplete (keyEventToAccelerator h e) = true
                    ∧ k' = accelerator (keyEventToAccelerator h e)
                    ∧ k' ≠ EmptyString)) in Hin.
    + destruct Hin as [[HQk | (e & -> & ? & ? & ?)] | (e & He & ? & ? & ?)].
      * by left.
      * right. exists e. split; [by left | done].
      * right. exists e. split; [by right | done].
    + intros k' Hk'. apply step_pending in Hk' as [Hk'|Hk']; [left; by apply HQ | by right].
Qed.

Lemma complete_accelerator_truthy (e : KeyboardEvent) :
  isComplete (keyEventToAccelerator h e) = true →
  truthy (accelerator (keyEventToAccelerator h e)) = true.
Proof.
  unfold keyEventToAccelerator, modifierParts. cbn [isComplete accelerator].
  destruct (isModifierKey (key e)); simpl; [done|].
  destruct (metaKey e), (ctrlKey e), (shiftKey e), (altKey e); simpl; done.
Qed.

Lemma isComplete_complete (e : KeyboardEvent) :
  isComplete (keyEventToAccelerator h e) = true →
  isModifierKey (key e) = false ∧ anyModifier e = true.
Proof.
  unfold keyEventToAccelerator, modifierParts, anyModifier. cbn [isComplete].
  destruct (isModifierKey (key e)); simpl; [done|].
  destruct (metaKey e), (ctrlKey e), (shiftKey e), (altKey e); simpl; done.
Qed.

(** A step sends a save request for a keybind only on a confirming
    event. *)
Lemma run_no_confirm (evs : list Event) (st : State) (k : string) :
  Forall (λ ev, confirms ev = false) evs → SaveKeybind k ∉ (run h evs st).2.
Proof.
  revert st. induction evs as [|ev evs IH]; intros st Hall; [by intros ?%elem_of_nil|].
  inversion Hall as [|?? Hev Hrest]; subst.
  rewrite run_cons. simpl. intros [Hin|Hin]%elem_of_app.
  - apply step_out_pending in Hin as [? _]. congruence.
  - by apply (IH _ Hrest) in Hin.
Qed.

Lemma stopRecording_no_settings (save : bool) (st : State) :
  currentSettings st = None →
  (stopRecording h save st).2 = [] ∧ currentSettings (stopRecording h save st).1 = None.
Proof.
  intros Hs. unfold stopRecording.
  destruct (isRecordingKeybind st); simpl; [|done].
  unfold saveKeybind. simpl. rewrite Hs.
  destruct save; [destruct (pendingTruthy _)|]; done.
Qed.

Lemma step_no_settings (st : State) (ev : Event) :
  currentSettings st = None → bringsSettings ev = false →
  (step h st ev).2 = [] ∧ currentSettings (step h st ev).1 = None.
Proof.
  intros Hs Hev. destruct ev as [|e| |c|s|kb resp|resp]; simpl.
  - unfold onClick. by destruct (isRecordingKeybind st).
  - unfold onKeyDown. remember (keyEventToAccelerator h e) as result eqn:Hres.
    destruct (isRecordingKeybind st); simpl; [|done].
    destruct (String.eqb (key e) "Escape"); [by apply stopRecording_no_settings|].
    destruct (String.eqb (key e) "Enter" && bool_decide _);
      [by apply stopRecording_no_settings|].
    destruct (truthy (accelerator result)); [destruct (isComplete result)|]; done.
  - unfold onBlur. by apply stopRecording_no_settings.
  - unfold savePersistHistory. simpl. by rewrite Hs.
  - by destruct s.
  - by destruct resp.
  - by destruct resp.
Qed.

End KeybindFacts.

(** ** Properties of the keybind recorder *)

Section KeybindProperties.
Import JsText Keybind.

#[local] Arguments keyEventToAccelerator : simpl never.
#[local] Arguments formatKeybind : simpl never.

(** X6: a key press gives a complete accelerator exactly when its key is
    not one of the four modifier keys and at least one modifier flag is
    set. *)
Theorem isComplete_iff (h : Host) (e : KeyboardEvent) :
  isComplete (keyEventToAccelerator h e) = true
  ↔ isModifierKey (key e) = false ∧ anyModifier e = true.
Proof.
  unfold keyEventToAccelerator, modifierParts, anyModifier. cbn [isComplete].
  destruct (isModifierKey (key e)); simpl.
  - split; [done | by intros [? _]].
  - destruct (metaKey e), (ctrlKey e), (shiftKey e), (altKey e); simpl;
      split; by try intros [_ ?].
Qed.

(** X7: the accelerator of a key press is the text
    [buildAcceleratorFromModifiers] gives for its flags, alone for a
    modifier key, followed by a plus sign and the normalised key when a
    flag is set, and the normalised key alone when none is. *)
Theorem accelerator_shape (h : Host) (e : KeyboardEvent) :
  accelerator (keyEventToAccelerator h e) =
  if isModifierKey (key e) then buildAcceleratorFromModifiers e
  else if anyModifier e
       then buildAcceleratorFromModifiers e +:+ "+" +:+ normalizeKey h (key e)
       else normalizeKey h (key e).
Proof.
  unfold keyEventToAccelerator, buildAcceleratorFromModifiers, modifierParts, anyModifier.
  cbn [accelerator].
  destruct (isModifierKey (key e)); simpl; [done|].
  destruct (metaKey e), (ctrlKey e), (shiftKey e), (altKey e); reflexivity.
Qed.

(** X8: whatever events arrive after the page is set up, whenever the
    recorder is not recording no keybind is pending. *)
Theorem idle_recorder_has_no_pending (h : Host) (evs : list Event)
    (display : string) (checked : bool) :
  let st := (run h evs (initial display checked)).1 in
  isRecordingKeybind st = false → pendingKeybind st = None.
Proof. intros st. by apply run_invariant. Qed.

Lemma idle_recorder_has_no_pending_witness :
  let e := {| key := "k"; metaKey := false; ctrlKey := true;
              shiftKey := false; altKey := false |} in
  let st := (run exampleHost [Click; KeyDown e; Blur] (initial "Ctrl + K" false)).1 in
  isRecordingKeybind st = false ∧ pendingKeybind st = None.
Proof.
  intros e st. split; [reflexivity|].
  apply (idle_recorder_has_no_pending exampleHost [Click; KeyDown e; Blur] "Ctrl + K" false).
  reflexivity.
Defined.

(** X9: every keybind the recorder asks to save was produced by a key
    press of the run whose accelerator is complete: it is not empty and
    it names at least one modifier and a key that is not a modifier. *)
Theorem saved_keybind_was_recorded_complete (h : Host) (evs : list Event)
    (display : string) (checked : bool) (k : string) :
  SaveKeybind k ∈ (run h evs (initial display checked)).2 →
  ∃ e, KeyDown e ∈ evs
       ∧ isModifierKey (key e) = false ∧ anyModifier e = true
       ∧ k = accelerator (keyEventToAccelerator h e) ∧ k ≠ EmptyString.
Proof.
  intros Hin.
  apply (run_saved h evs _ (λ _, False)) in Hin as [[]|(e & He & Hc & Hk & Hne)].
  - exists e. apply isComplete_complete in Hc as [? ?]. done.
  - done.
Qed.

Lemma saved_keybind_was_recorded_complete_witness :
  let e := {| key := "k"; metaKey := false; ctrlKey := true;
              shiftKey := false; altKey := false |} in
  let s := {| spotlightKeybind := "CommandOrControl+Shift+Space";
              spotlightPersistHistory := true |} in
  let evs := [SettingsLoaded (Some s); Click; KeyDown e; Blur] in
  SaveKeybind "CommandOrControl+K" ∈ (run exampleHost evs (initial EmptyString false)).2
  ∧ ∃ e', KeyDown e' ∈ evs
          ∧ isModifierKey (key e') = false ∧ anyModifier e' = true
          ∧ "CommandOrControl+K" = accelerator (keyEventToAccelerator exampleHost e')
          ∧ "CommandOrControl+K" ≠ EmptyString.
Proof.
  intros e s evs.
  assert (H : SaveKeybind "CommandOrControl+K"
              ∈ (run exampleHost evs (initial EmptyString false)).2).
  { apply list_elem_of_singleton. reflexivity. }
  split; [exact H|].
  exact (saved_keybind_was_recorded_complete exampleHost evs EmptyString false _ H).
Defined.

(** X10: a keybind is saved only on a blur or on a key press of Enter:
    from any state, a run without those events sends no request to save
    a keybind. *)
Theorem only_confirming_events_save (h : Host) (evs : list Event) (st : State)
    (k : string) :
  Forall (λ ev, confirms ev = false) evs → SaveKeybind k ∉ (run h evs st).2.
Proof. apply run_no_confirm. Qed.

Lemma only_confirming_events_save_witness :
  let e := {| key := "k"; metaKey := false; ctrlKey := true;
              shiftKey := false; altKey := false |} in
  let esc := {| key := "Escape"; metaKey := false; ctrlKey := false;
                shiftKey := false; altKey := false |} in
  let evs := [Click; KeyDown e; KeyDown esc] in
  Forall (λ ev, confirms ev = false) evs
  ∧ SaveKeybind "CommandOrControl+K" ∉ (run exampleHost evs (initial EmptyString false)).2.
Proof.
  intros e esc evs.
  assert (H : Forall (λ ev, confirms ev = false) evs) by (repeat constructor).
  split; [exact H|].
  exact (only_confirming_events_save exampleHost evs _ _ H).
Defined.

(** X11: while no settings are stored, nothing is sent: a run from a
    state without settings, in which no awaited call comes back with
    settings, sends no request at all (a keybind recorded in it is
    dropped) and ends without settings. *)
Theorem nothing_sent_without_settings (h : Host) (evs : list Event) (st : State) :
  currentSettings st = None →
  Forall (λ ev, bringsSettings ev = false) evs →
  (run h evs st).2 = [] ∧ currentSettings (run h evs st).1 = None.
Proof.
  revert st. induction evs as [|ev evs IH]; intros st Hs Hall; [done|].
  inversion Hall as [|?? Hev Hrest]; subst.
  destruct (step_no_settings h st ev Hs Hev) as [Hout Hs1].
  rewrite run_cons. simpl. rewrite Hout. simpl. by apply IH.
Qed.

Lemma nothing_sent_without_settings_witness :
  let e := {| key := "k"; metaKey := false; ctrlKey := true;
              shiftKey := false; altKey := false |} in
  let evs := [Click; KeyDown e; Blur; PersistToggled true] in
  currentSettings (initial EmptyString false) = None
  ∧ Forall (λ ev, bringsSettings ev = false) evs
  ∧ (run exampleHost evs (initial EmptyString false)).2 = [].
Proof.
  intros e evs.
  assert (H : Forall (λ ev, bringsSettings ev = false) evs) by (repeat constructor).
  split; [reflexivity|]. split; [exact H|].
  exact (proj1 (nothing_sent_without_settings exampleHost evs
                  (initial EmptyString false) eq_refl H)).
Defined.

(** X12: recording and confirming: from an idle recorder with settings
    stored, a click, a key press with a complete accelerator (any key
    but Escape) and then a blur or a press of Enter send exactly one
    request, to save that accelerator, and leave the recorder idle with
    nothing pending. *)
Theorem record_then_confirm (h : Host) (st : State) (e : KeyboardEvent) (ev : Event) :
  isRecordingKeybind st = false → is_Some (currentSettings st) →
  String.eqb (key e) "Escape" = false →
  isComplete (keyEventToAccelerator h e) = true →
  confirms ev = true →
  let '(st', out) := run h [Click; KeyDown e; ev] st in
  out = [SaveKeybind (accelerator (keyEventToAccelerator h e))]
  ∧ isRecordingKeybind st' = false ∧ pendingKeybind st' = None.
Proof.
  intros Hrec [s Hs] Hesc Hc Hev.
  pose proof (complete_accelerator_truthy h e Hc) as Ht.
  assert (Hk : step h (onClick st) (KeyDown e)
               = (setPending (Some (accelerator (keyEventToAccelerator h e)))
                    (setDisplay (formatKeybind h (accelerator (keyEventToAccelerator h e)))
                       (onClick st)), [])).
  { unfold onClick. rewrite Hrec. cbn [step negb]. unfold onKeyDown.
    cbn [isRecordingKeybind negb]. rewrite Hesc.
    replace (bool_decide _) with false.
    2:{ symmetry. apply bool_decide_eq_false. by intros [? ?]. }
    rewrite andb_false_r. by rewrite Ht, Hc. }
  set (st2 := setPending _ _) in Hk.
  assert (Hp : pendingTruthy st2 = Some (accelerator (keyEventToAccelerator h e))).
  { unfold pendingTruthy, st2. cbn [pendingKeybind setPending]. by rewrite Ht. }
  assert (Hstop : stopRecording h true st2
                  = (setPending None
                       {| isRecordingKeybind := false;
                          currentSettings := currentSettings st2;
                          pendingKeybind := pendingKeybind st2;
                          displayText := displayText st2;
                          recordingClass := false;
                          persistChecked := persistChecked st2 |},
                     [SaveKeybind (accelerator (keyEventToAccelerator h e))])).
  { unfold stopRecording.
    assert (Hr2 : isRecordingKeybind st2 = true).
    { unfold st2, onClick. by rewrite Hrec. }
    rewrite Hr2. cbn [negb].
    assert (Hs2 : currentSettings st2 = Some s).
    { unfold st2, onClick. by rewrite Hrec. }
    unfold pendingTruthy in *. cbn [pendingKeybind] in *. rewrite Hp.
    unfold saveKeybind. cbn [currentSettings]. by rewrite Hs2. }
  assert (Hlast : step h st2 ev = stopRecording h true st2).
  { destruct ev as [|e'| | | | |]; try discriminate Hev; cbn [step].
    - unfold onKeyDown.
      assert (Hr2 : isRecordingKeybind st2 = true).
      { unfold st2, onClick. by rewrite Hrec. }
      rewrite Hr2. cbn [negb]. simpl in Hev.
      destruct (String.eqb (key e') "Escape") eqn:Hesc'.
      { apply String.eqb_eq in Hev. apply String.eqb_eq in Hesc'. congruence. }
      rewrite Hev, Hp. by rewrite bool_decide_eq_true_2 by eauto.
    - unfold onBlur. rewrite Hp. by rewrite bool_decide_eq_true_2 by eauto. }
  assert (Hrun : run h [Click; KeyDown e; ev] st
                 = ((stopRecording h true st2).1,
                    [SaveKeybind (accelerator (keyEventToAccelerator h e))])).
  { rewrite !run_cons. change (step h st Click) with (onClick st, @nil Request).
    cbn [fst snd]. rewrite Hk. cbn [fst snd]. rewrite Hlast, Hstop. reflexivity. }
  rewrite Hrun, Hstop. done.
Qed.

Lemma record_then_confirm_witness :
  let e := {| key := "k"; metaKey := false; ctrlKey := true;
              shiftKey := true; altKey := false |} in
  let s := {| spotlightKeybind := "CommandOrControl+Shift+Space";
              spotlightPersistHistory := true |} in
  let st := loadSettingsDone exampleHost (Some s) (initial EmptyString false) in
  isRecordingKeybind st = false ∧ is_Some (currentSettings st)
  ∧ String.eqb (key e) "Escape" = false
  ∧ isComplete (keyEventToAccelerator exampleHost e) = true
  ∧ confirms Blur = true
  ∧ (run exampleHost [Click; KeyDown e; Blur] st).2 = [SaveKeybind "CommandOrControl+Shift+K"].
Proof.
  intros e s st.
  pose proof (record_then_confirm exampleHost st e Blur eq_refl
                (ex_intro _ s eq_refl) eq_refl eq_refl eq_refl) as H.
  do 5 (split; [first [reflexivity | by eexists]|]).
  destruct (run exampleHost [Click; KeyDown e; Blur] st) as [st' out].
  exact (proj1 H).
Defined.

(** X13: Escape cancels a recording: whatever the modifiers and whatever
    is pending, nothing is sent, the recorder is idle with nothing
    pending, the settings are untouched and, when settings are stored,
    the display shows the stored keybind again. *)
Theorem escape_cancels (h : Host) (st : State) (e : KeyboardEvent) :
  isRecordingKeybind st = true → key e = "Escape" →
  let '(st', out) := onKeyDown h e st in
  out = []
  ∧ isRecordingKeybind st' = false ∧ pendingKeybind st' = None
  ∧ currentSettings st' = currentSettings st
  ∧ displayText st' =
    match currentSettings st with
    | Some s => formatKeybind h (spotlightKeybind s)
    | None => displayText st
    end.
Proof.
  intros Hrec Hkey. unfold onKeyDown. rewrite Hrec, Hkey. cbn [negb String.eqb].
  change (String.eqb "Escape" "Escape") with true. cbv iota.
  unfold stopRecording. rewrite Hrec. cbn [negb].
  destruct (currentSettings st) as [s|] eqn:Hs; cbn; rewrite ?Hs; done.
Qed.

Lemma escape_cancels_witness :
  let e := {| key := "k"; metaKey := false; ctrlKey := true;
              shiftKey := false; altKey := false |} in
  let esc := {| key := "Escape"; metaKey := false; ctrlKey := false;
                shiftKey := true; altKey := false |} in
  let s := {| spotlightKeybind := "CommandOrControl+Shift+Space";
              spotlightPersistHistory := true |} in
  let st := (run exampleHost [SettingsLoaded (Some s); Click; KeyDown e]
               (initial EmptyString false)).1 in
  isRecordingKeybind st = true ∧ key esc = "Escape"
  ∧ pendingKeybind st = Some "CommandOrControl+K"
  ∧ (onKeyDown exampleHost esc st).2 = []
  ∧ displayText (onKeyDown exampleHost esc st).1 = "Ctrl + [shift] + Space".
Proof.
  intros e esc s st.
  pose proof (escape_cancels exampleHost st esc eq_refl eq_refl) as H.
  do 3 (split; [reflexivity|]).
  destruct (onKeyDown exampleHost esc st) as [st' out] eqn:Hk.
  destruct H as (Hout & _ & _ & _ & Hd). split; [exact Hout|].
  cbn [fst]. rewrite Hd. reflexivity.
Defined.

End KeybindProperties.

(** ** Properties of the MCP client's tool list *)

Section MCPClientProperties.
Import MCPClient.

(** What [getAllTools] pushes for one entry of the map. *)
Lemma getAllTools_eq (conns : list (string * MCPConnection)) :
  getAllTools conns =
  flat_map (λ entry,
              if isConnected entry.2
              then map (λ t, {| serverId := entry.1;
                                serverName := configName entry.2;
                                tool := t |}) (tools entry.2)
              else []) conns.
Proof.
  unfold getAllTools. rewrite foldl_push with (f := λ entry,
    if isConnected entry.2
    then map (λ t, {| serverId := entry.1; serverName := configName entry.2;
                      tool := t |}) (tools entry.2)
    else []); [done|].
  intros acc [sid conn]. simpl. destruct (isConnected conn); simpl.
  - apply foldl_push_one.
  - by rewrite app_nil_r.
Qed.

(** X14: [getAllTools] returns exactly the tools of the connected
    connections, each with the id it is stored under and the name of its
    configuration; a connection that is not connected contributes
    nothing. *)
Theorem getAllTools_members (conns : list (string * MCPConnection)) (t : ToolEntry) :
  t ∈ getAllTools conns ↔
  ∃ conn, (serverId t, conn) ∈ conns ∧ isConnected conn = true
          ∧ serverName t = configName conn ∧ tool t ∈ tools conn.
Proof.
  rewrite getAllTools_eq, elem_of_flat_map. split.
  - intros ([sid conn] & Hin & Ht). simpl in Ht.
    destruct (isConnected conn) eqn:Hc; [|by apply elem_of_nil in Ht].
    rewrite list_elem_of_In, in_map_iff in Ht. destruct Ht as (tl & <- & Htl).
    exists conn. simpl. apply list_elem_of_In in Htl. done.
  - intros (conn & Hin & Hc & Hname & Htool). exists (serverId t, conn).
    split; [done|]. simpl. rewrite Hc.
    rewrite list_elem_of_In, in_map_iff. exists (tool t).
    rewrite <- list_elem_of_In. split; [|done].
    destruct t; simpl in *. by subst.
Qed.

(** X15: the list is built connection by connection: the tools of two
    runs of entries are the tools of the first followed by those of the
    second, so the order of the map and of each tool list is kept. *)
Theorem getAllTools_app (conns1 conns2 : list (string * MCPConnection)) :
  getAllTools (conns1 ++ conns2) = getAllTools conns1 ++ getAllTools conns2.
Proof. rewrite !getAllTools_eq. apply flat_map_app. Qed.

End MCPClientProperties.

(** ** Properties of the listener cleanup *)

Section PreloadProperties.
Import Preload.

Lemma cleanupListeners_lookup (names : list string) (reg : gmap string (list nat))
    (ch : string) :
  cleanupListeners names reg !! ch
  = if bool_decide (ch ∈ names) then None else reg !! ch.
Proof.
  unfold cleanupListeners, removeAllListeners.
  revert reg. induction names as [|n names IH]; intros reg; simpl; [done|].
  rewrite IH. destruct (decide (ch = n)) as [->|Hne].
  - rewrite lookup_delete_eq. rewrite (bool_decide_eq_true_2 (n ∈ n :: names)) by left.
    by destruct (bool_decide _).
  - rewrite lookup_delete_ne by done.
    destruct (bool_decide (ch ∈ names)) eqn:Hin.
    + apply bool_decide_eq_true in Hin.
      by rewrite bool_decide_eq_true_2 by (by right).
    + apply bool_decide_eq_false in Hin.
      rewrite bool_decide_eq_false_2; [done|].
      by intros [?|?]%elem_of_cons.
Qed.

(** X16: [removeStreamListeners] clears its nine message channels and
    [removeSpotlightListeners] its six spotlight channels; every other
    channel keeps its listeners. *)
Theorem cleanup_clears_exactly_its_channels (reg : gmap string (list nat)) (ch : string) :
  removeStreamListeners reg !! ch
  = (if bool_decide (ch ∈ streamChannels) then None else reg !! ch)
  ∧ removeSpotlightListeners reg !! ch
    = (if bool_decide (ch ∈ spotlightChannels) then None else reg !! ch).
Proof.
  split.
  - apply (cleanupListeners_lookup streamChannels).
  - apply (cleanupListeners_lookup spotlightChannels).
Qed.

(** X17: for the message channels the three proposed rewrites do what
    [removeStreamListeners] does: the utility taking a prefix, called
    with message, and the two that take the list of channel names. *)
Theorem proposed_cleanup_matches_stream (reg : gmap string (list nat)) :
  removeAllListenersProposed "message" reg = removeStreamListeners reg
  ∧ cleanupListeners streamChannels reg = removeStreamListeners reg
  ∧ cleanupListeners spotlightChannels reg = removeSpotlightListeners reg.
Proof. repeat split. Qed.

(** X18: the proposed utility taking a prefix does not do what
    [removeSpotlightListeners] does: called with spotlight it leaves the
    listeners of the channel spotlight-tool in place, which
    [removeSpotlightListeners] removes. *)
Theorem proposed_cleanup_keeps_spotlight_tool (reg : gmap string (list nat)) :
  removeAllListenersProposed "spotlight" reg !! "spotlight-tool" = reg !! "spotlight-tool"
  ∧ removeSpotlightListeners reg !! "spotlight-tool" = None.
Proof.
  split.
  - change (removeAllListenersProposed "spotlight" reg)
      with (cleanupListeners
              ["spotlight-stream"; "spotlight-complete"; "spotlight-thinking";
               "spotlight-thinking-stream"; "spotlight-tool-use";
               "spotlight-tool-result"; "spotlight-citation";
               "spotlight-tool-approval"; "spotlight-compaction"] reg).
    by rewrite cleanupListeners_lookup.
  - change (removeSpotlightListeners reg) with (cleanupListeners spotlightChannels reg).
    by rewrite cleanupListeners_lookup.
Qed.

End PreloadProperties.

(** ** Properties of the proposed tool badge *)

Section BadgeProposalProperties.
Import Selection.

Lemma badge_count_length (st : State) :
  toolsBadgeCount st = length (getSelectedMCPTools st).
Proof.
  unfold toolsBadgeCount, getSelectedMCPTools. symmetry.
  rewrite foldl_length_sim with
    (stepC := λ count toolKey,
       if negb (has (selectedMCPServers st) (splitKey toolKey).1)
       then count + 1 else count).
  - f_equal.
    apply (foldl_length_sim _
      (λ count sid,
         match findServer st sid with
         | Some server =>
             if isConnected server then count + length (tools server) else count
         | None => count
         end)).
    intros acc sid. destruct (findServer st sid) as [server|]; [|done].
    destruct (isConnected server); [|done].
    by rewrite foldl_push_one, length_app, length_map.
  - intros acc key. destruct (splitKey key) as [sid tn]. simpl.
    destruct (negb _); [|done]. by rewrite length_app.
Qed.



End BadgeProposalProperties.

(** ** A bound on what the sanitizer removes *)

(** X20: on a string [sanitizeArg] never returns anything longer than its
    input, and it removes at most two characters. *)
Theorem sanitizeArg_length (s : string) :
  (String.length (sanitizeArg (JsString s)) <= String.length s)%nat
  ∧ (String.length s <= String.length (sanitizeArg (JsString s)) + 2)%nat.
Proof.
  simpl. unfold stripQuotes. destruct (quoteTest s) eqn:Ht; [|lia].
  apply quoteTest_shape in Ht as [->|[->|[[inner ->]|[inner ->]]]].
  - simpl. lia.
  - simpl. lia.
  - rewrite slice_wrap. simpl. rewrite string_length_app. simpl. lia.
  - rewrite slice_wrap. simpl. rewrite string_length_app. simpl. lia.
Qed.

(** ** The display of a plain key *)

Section FormatKeybindProperties.
Import JsText Keybind.

Lemma replaceFirst_absent (pat rep s : string) :
  occurs pat s = false → replaceFirst pat rep s = s.
Proof.
  induction s as [|c s IH].
  - simpl. by destruct pat.
  - intros [Hp Ho]%orb_false_iff. cbn [replaceFirst]. rewrite Hp.
    by rewrite IH.
Qed.

Lemma replaceAllChar_absent (c : ascii) (rep s : string) :
  hasChar c s = false → replaceAllChar c rep s = s.
Proof.
  induction s as [|x s IH]; simpl; [done|].
  intros [Hx Hs]%orb_false_iff. by rewrite Hx, IH.
Qed.

Lemma prefix_app_l (a b s : string) :
  String.prefix (a +:+ b) s = true → String.prefix a s = true.
Proof.
  revert s. induction a as [|c a IH]; intros s; [by destruct s|].
  rewrite app_cons. destruct s as [|x s]; simpl; [done|].
  destruct (ascii_dec c x); [apply IH | done].
Qed.

Lemma occurs_app_l (a b s : string) :
  occurs a s = false → occurs (a +:+ b) s = false.
Proof.
  induction s as [|x s IH].
  - cbn [occurs]. rewrite !orb_false_r. intros Ha.
    destruct (String.prefix (a +:+ b) EmptyString) eqn:Hp; [|done].
    apply prefix_app_l in Hp. congruence.
  - cbn [occurs]. intros [Hp Ho]%orb_false_iff. rewrite (IH Ho), orb_false_r.
    destruct (String.prefix (a +:+ b) (String x s)) eqn:Hq; [|done].
    apply prefix_app_l in Hq. congruence.
Qed.

(** X21: a keybind that holds no plus sign and none of the words Command,
    Control, Shift, Alt and Option is displayed as it is, on every
    platform. *)
Theorem formatKeybind_plain (h : Host) (s : string) :
  occurs "Command" s = false → occurs "Control" s = false →
  occurs "Shift" s = false → occurs "Alt" s = false →
  occurs "Option" s = false → hasChar "+" s = false →
  formatKeybind h s = s.
Proof.
  intros Hcmd Hctl Hsh Halt Hopt Hplus. unfold formatKeybind.
  rewrite (replaceFirst_absent "CommandOrControl")
    by apply (occurs_app_l "Command" "OrControl" s Hcmd).
  rewrite (replaceFirst_absent "Command") by done.
  rewrite (replaceFirst_absent "Control") by done.
  rewrite (replaceFirst_absent "Shift") by done.
  rewrite (replaceFirst_absent "Alt") by done.
  rewrite (replaceFirst_absent "Option") by done.
  by apply replaceAllChar_absent.
Qed.

Lemma formatKeybind_plain_witness :
  occurs "Command" "F5" = false ∧ occurs "Control" "F5" = false
  ∧ occurs "Shift" "F5" = false ∧ occurs "Alt" "F5" = false
  ∧ occurs "Option" "F5" = false ∧ hasChar "+" "F5" = false
  ∧ formatKeybind exampleHost "F5" = "F5".
Proof.
  do 6 (split; [reflexivity|]).
  apply (formatKeybind_plain exampleHost "F5"); reflexivity.
Defined.

End FormatKeybindProperties.
